(** * scripts/generate-content.js: the content aggregation pipeline

    A shallow embedding of the script that turns the [content/] tree
    (projects, news, team, stats) into the JSON artifacts under
    [public/data/], and the properties of its parser, asset lookup,
    collectors and sort comparators.

    Conventions of the embedding.
    - A JavaScript string is the list of its UTF-16 code units.
    - A JavaScript object used as a dictionary is a [gmap] keyed by strings.
    - An [async] function is a function of a filesystem snapshot into a
      small monad that carries the thrown exception, if any, and the
      lines handed to [console.warn].
    - What the host supplies ([String.prototype.localeCompare], the Unicode
      part of [toLowerCase]) is a parameter. *)

From Stdlib Require Import ZArith NArith QArith Ascii String List Permutation.
From stdpp Require Import base option list gmap sets sorting.

Local Open Scope Z_scope.
Local Open Scope list_scope.

(** ** Strings *)

Abbreviation jsstring := (list N).

(** A literal of the source, for characters below 128. *)
Definition js (s : string) : jsstring :=
  List.map N_of_ascii (list_ascii_of_string s).

Definition LF : N := 10%N.
Definition CR : N := 13%N.

(** ECMAScript [WhiteSpace] and [LineTerminator] code points: what
    [String.prototype.trim] strips and what [Number] skips. *)
Definition isWhiteSpace (c : N) : bool :=
  ((c =? 9) || (c =? 10) || (c =? 11) || (c =? 12) || (c =? 13) || (c =? 32)
   || (c =? 160) || (c =? 0x1680) || ((0x2000 <=? c) && (c <=? 0x200A))
   || (c =? 0x2028) || (c =? 0x2029) || (c =? 0x202F) || (c =? 0x205F)
   || (c =? 0x3000) || (c =? 0xFEFF))%N.

Fixpoint trimStart (s : jsstring) : jsstring :=
  match s with
  | c :: s' => if isWhiteSpace c then trimStart s' else s
  | [] => []
  end.

Definition trimEnd (s : jsstring) : jsstring := rev (trimStart (rev s)).

(** [s.trim()] *)
Definition trim (s : jsstring) : jsstring := trimEnd (trimStart s).

(** [s.startsWith(p)] *)
Fixpoint startsWith (p s : jsstring) : bool :=
  match p, s with
  | [], _ => true
  | _ :: _, [] => false
  | a :: p', b :: s' => (a =? b)%N && startsWith p' s'
  end.

(** [s.indexOf(needle)], with [None] for [-1]. *)
Fixpoint indexOf (needle s : jsstring) : option nat :=
  if startsWith needle s then Some 0%nat
  else match s with
       | [] => None
       | _ :: s' => S <$> indexOf needle s'
       end.

(** [s.includes(needle)] *)
Definition includes (needle s : jsstring) : bool :=
  bool_decide (is_Some (indexOf needle s)).

(** [s.slice(0, i)] and [s.slice(i)] for an index [i] within the string. *)
Definition slice_to (i : nat) (s : jsstring) : jsstring := take i s.
Definition slice_from (i : nat) (s : jsstring) : jsstring := drop i s.

(** [s.split(sep)] for a separator that is a non-empty literal, given as a
    string or as a regular expression without operators, such as
    [/\n---\n/]: matches are taken left to right and do not overlap.
    [skip] counts the code units of the current match still to pass; the
    result is the first piece and the later pieces. *)
Fixpoint split_from (sep : jsstring) (skip : nat) (s : jsstring)
  : jsstring * list jsstring :=
  match s with
  | [] => ([], [])
  | c :: s' =>
      match skip with
      | S k => split_from sep k s'
      | O =>
          if startsWith sep s
          then let '(h, t) := split_from sep (length sep - 1) s' in ([], h :: t)
          else let '(h, t) := split_from sep 0 s' in (c :: h, t)
      end
  end.

Definition split (sep s : jsstring) : list jsstring :=
  let '(h, t) := split_from sep 0 s in h :: t.

(** [pieces.join(sep)] *)
Fixpoint join (sep : jsstring) (pieces : list jsstring) : jsstring :=
  match pieces with
  | [] => []
  | [p] => p
  | p :: ps => p ++ sep ++ join sep ps
  end.

(** [s.split(/\r?\n/)]: a line ends at a line feed, and a carriage return
    just before it belongs to the terminator. *)
Fixpoint splitLines_from (s : jsstring) : jsstring * list jsstring :=
  match s with
  | [] => ([], [])
  | c :: s' =>
      if (c =? LF)%N
      then let '(h, t) := splitLines_from s' in ([], h :: t)
      else
        match s' with
        | d :: s'' =>
            if (c =? CR)%N && (d =? LF)%N
            then let '(h, t) := splitLines_from s'' in ([], h :: t)
            else let '(h, t) := splitLines_from s' in (c :: h, t)
        | [] => ([c], [])
        end
  end.

Definition splitLines (s : jsstring) : list jsstring :=
  let '(h, t) := splitLines_from s in h :: t.

(** ** Exceptions and results *)

(** The system error codes a Node [fs] call rejects with. *)
Inductive errno :=
  | ENOENT | EACCES | EPERM | ENOTDIR | EISDIR | ELOOP | EIO | EMFILE
  | ENAMETOOLONG | ENOSPC | EROFS.

Inductive exn :=
  | SystemError (code : errno)
  | TypeError.

Inductive result (A : Type) :=
  | Ok (a : A)
  | Throw (e : exn).
Arguments Ok {A} a.
Arguments Throw {A} e.

(** ** Objects used as dictionaries *)

Definition PROTO : jsstring := js "__proto__".

(** [obj[key] = value] on an object created by [{}], for a [value] that is
    a string or a number. The object inherits the accessor [__proto__] of
    [Object.prototype], so the assignment with that key runs the setter,
    which ignores a value that is neither an object nor [null], and no
    own property is created. Every other key becomes an own property. *)
Definition setProperty {V} (key : jsstring) (value : V) (obj : gmap jsstring V)
  : gmap jsstring V :=
  if bool_decide (key = PROTO) then obj else <[key := value]> obj.

(** ** parseMetaTxt *)

Definition COLON : jsstring := js ":".
Definition DELIMITER : jsstring := [LF] ++ js "---" ++ [LF].
Definition DESCRIPTION : jsstring := js "description".

(** The body of the loop over the header lines. *)
Definition headLine (head : gmap jsstring jsstring) (line : jsstring)
  : gmap jsstring jsstring :=
  match trim line with
  | [] => head
  | _ :: _ =>
      match indexOf COLON line with
      | None => head
      | Some idx =>
          let key := trim (slice_to idx line) in
          let value := trim (slice_from (idx + 1) line) in
          setProperty key value head
      end
  end.

Definition parseHead (headRaw : jsstring) : gmap jsstring jsstring :=
  foldl headLine ∅ (splitLines headRaw).

(** Destructuring [[headRaw, ...rest]] of an empty array would leave
    [headRaw] undefined and [headRaw.split] would throw. *)
Definition parseMetaTxt (txt : jsstring) : result (gmap jsstring jsstring) :=
  match split DELIMITER txt with
  | [] => Throw TypeError
  | headRaw :: rest =>
      let head := parseHead headRaw in
      let body := match rest with
                  | [] => []
                  | _ :: _ => trim (join DELIMITER rest)
                  end in
      Ok (<[DESCRIPTION := body]> head)
  end.

(** ** Number(string) and Number.isFinite *)

(** A Number value. [Finite q] stands for the double nearest to the
    rational [q]; the rounding of the mantissa is left out, the overflow
    to an infinity is not (it decides [Number.isFinite]). *)
Inductive JsNumber :=
  | NaN
  | Infinity (negative : bool)
  | Finite (q : Q).

Definition isDigit (radix : N) (c : N) : bool :=
  ((48 <=? c) && (c <? 48 + N.min radix 10)
   || (10 <? radix) && (((97 <=? c) && (c <? 87 + radix))
                        || ((65 <=? c) && (c <? 55 + radix))))%N.

Definition digitValue (c : N) : Z :=
  if (c <? 58)%N then Z.of_N c - 48
  else if (c <? 91)%N then Z.of_N c - 55
  else Z.of_N c - 87.

(** The longest prefix of digits, and what follows it. *)
Fixpoint spanDigits (radix : N) (s : jsstring) : jsstring * jsstring :=
  match s with
  | c :: s' =>
      if isDigit radix c
      then let '(ds, r) := spanDigits radix s' in (c :: ds, r)
      else ([], s)
  | [] => ([], [])
  end.

Definition digitsValue (radix : Z) (ds : jsstring) : Z :=
  foldl (fun acc c => acc * radix + digitValue c) 0 ds.

(** The mathematical value [m * 10 ^ e] as a Number: an infinity from
    [2^1024 - 2^970] on, where round-to-nearest leaves the doubles. *)
Definition ofDecimal (negative : bool) (m e : Z) : JsNumber :=
  let q := if (0 <=? e)%Z then inject_Z (m * 10 ^ e)
           else Qmake m (Z.to_pos (10 ^ (- e))) in
  if Qle_bool (inject_Z (2 ^ 1024 - 2 ^ 970)) q then Infinity negative
  else Finite (Qred (if negative then Qopp q else q)).

(** [ExponentPart], optional: the power of ten, when nothing follows it. *)
Definition exponentPart (s : jsstring) : option Z :=
  match s with
  | [] => Some 0
  | c :: s' =>
      if ((c =? 101) || (c =? 69))%N then
        let '(negative, s'') :=
          match s' with
          | d :: r => if (d =? 45)%N then (true, r)
                      else if (d =? 43)%N then (false, r) else (false, s')
          | [] => (false, s')
          end in
        match spanDigits 10 s'' with
        | ((_ :: _) as ds, []) =>
            Some (if negative then - digitsValue 10 ds else digitsValue 10 ds)
        | _ => None
        end
      else None
  end.

(** [StrUnsignedDecimalLiteral]. *)
Definition unsignedDecimalLiteral (negative : bool) (s : jsstring)
  : option JsNumber :=
  if bool_decide (s = js "Infinity") then Some (Infinity negative) else
  let '(int, r) := spanDigits 10 s in
  let '(frac, r') := match r with
                     | c :: r2 => if (c =? 46)%N then spanDigits 10 r2 else ([], r)
                     | [] => ([], r)
                     end in
  match int ++ frac with
  | [] => None
  | _ :: _ =>
      e ← exponentPart r';
      Some (ofDecimal negative (digitsValue 10 (int ++ frac))
                      (e - Z.of_nat (length frac)))
  end.

(** [StrDecimalLiteral]: the decimal reading of a string, sign included. *)
Definition decimalLiteral (s : jsstring) : option JsNumber :=
  match s with
  | c :: s' =>
      if (c =? 45)%N then unsignedDecimalLiteral true s'
      else if (c =? 43)%N then unsignedDecimalLiteral false s'
      else unsignedDecimalLiteral false s
  | [] => None
  end.

(** [NonDecimalIntegerLiteral]: [0x], [0o] and [0b] integers, unsigned. *)
Definition nonDecimalIntegerLiteral (s : jsstring) : option JsNumber :=
  match s with
  | z :: p :: ds =>
      let radix : N :=
        (if (p =? 120) || (p =? 88) then 16
         else if (p =? 111) || (p =? 79) then 8
         else if (p =? 98) || (p =? 66) then 2 else 0)%N in
      if (z =? 48)%N && negb (radix =? 0)%N then
        match spanDigits radix ds with
        | ((_ :: _) as ds', []) => Some (ofDecimal false (digitsValue (Z.of_N radix) ds') 0)
        | _ => None
        end
      else None
  | _ => None
  end.

(** [Number(s)] for a string [s] (StringToNumber). *)
Definition Number (s : jsstring) : JsNumber :=
  match trim s with
  | [] => Finite 0
  | (_ :: _) as t =>
      match decimalLiteral t with
      | Some n => n
      | None => default NaN (nonDecimalIntegerLiteral t)
      end
  end.

(** [Number.isFinite(n)] *)
Definition isFinite (n : JsNumber) : bool :=
  match n with
  | Finite _ => true
  | _ => false
  end.

(** ** Array.prototype.sort *)

(** [arr.sort(compare)]: stable, by insertion from the right. For a
    consistent comparator ECMAScript fixes the result (the stable sorted
    permutation), so every engine agrees with this function there. *)
Fixpoint insertBy {A} (compare : A -> A -> Z) (x : A) (l : list A) : list A :=
  match l with
  | [] => [x]
  | y :: l' => if (compare x y <=? 0)%Z then x :: l else y :: insertBy compare x l'
  end.

Definition sort {A} (compare : A -> A -> Z) (arr : list A) : list A :=
  foldr (insertBy compare) [] arr.

(** ** Directory entries and records *)

Inductive FileType :=
  | RegularFile | Directory | SymbolicLink | FIFO | Socket
  | BlockDevice | CharacterDevice | UnknownType.

Module Dirent.
Record t := { name : jsstring; type : FileType }.

Definition isDirectory (d : t) : bool :=
  match type d with Directory => true | _ => false end.

Definition isFile (d : t) : bool :=
  match type d with RegularFile => true | _ => false end.
End Dirent.

Module Project.
Record t := {
  slug : jsstring;
  title : jsstring;
  date : option jsstring;
  tags : list jsstring;
  status : jsstring;
  links : option jsstring;
  cover : option jsstring;
  gallery : list jsstring;
  description : jsstring;
  path : jsstring
}.
End Project.

Module News.
Record t := {
  slug : jsstring;
  title : jsstring;
  date : option jsstring;
  author : jsstring;
  cover : option jsstring;
  description : jsstring;
  path : jsstring
}.
End News.

Module TeamMember.
Record t := {
  slug : jsstring;
  name : jsstring;
  role : jsstring;
  email : jsstring;
  links : jsstring;
  photo : option jsstring;
  bio : jsstring
}.
End TeamMember.

Inductive StatValue :=
  | NumberValue (n : JsNumber)
  | StringValue (s : jsstring).

(** What [main] hands to [JSON.stringify] and then to [fs.writeFile]. *)
Inductive Artifact :=
  | ProjectsJson (projects : list Project.t)
  | NewsJson (news : list News.t)
  | TeamJson (team : list TeamMember.t)
  | StatsJson (stats : gmap jsstring StatValue).

(** ** The filesystem *)

(** A path is the list of its segments below the repository root; the
    names joined by [path.join] are literals and names returned by
    [readdir], which are single segments. *)
Abbreviation fspath := (list jsstring).

Module fs.
(** The state of the disk during one run, as the [fs/promises] calls
    of the script see it. *)
Record snapshot := {
  readdir : fspath -> result (list Dirent.t);
  readFile : fspath -> result jsstring;
  access : fspath -> result unit;
  mkdir : fspath -> result unit;
  writeFile : fspath -> Artifact -> result unit
}.
End fs.

Definition CONTENT : fspath := [js "content"].
Definition PUBLIC_DATA : fspath := [js "public"; js "data"].

(** ** Asynchronous functions *)

(** What a run leaves behind: the lines of the console and the files
    written. *)
Inductive Event :=
  | warn (msg : jsstring)
  | log (msg : jsstring)
  | error (e : exn)
  | written (file : fspath) (data : Artifact).

(** The outcome of an [async] function on a snapshot: its value or the
    exception it rejects with, and the events up to there. *)
Definition io (A : Type) : Type := result A * list Event.

#[export] Instance io_ret : MRet io := fun A a => (Ok a, []).

#[export] Instance io_bind : MBind io := fun A B k m =>
  match m with
  | (Ok a, out) => let '(r, out') := k a in (r, out ++ out')
  | (Throw e, out) => (Throw e, out)
  end.

(** [await] of an [fs] call, or a call of a function that may throw. *)
Definition await {A} (r : result A) : io A := (r, []).

Definition console (line : Event) : io unit := (Ok tt, [line]).

(** [await fs.writeFile(file, JSON.stringify(data, null, 2), "utf8")] *)
Definition writeJson (disk : fs.snapshot) (file : fspath) (data : Artifact) : io unit :=
  match fs.writeFile disk file data with
  | Ok _ => (Ok tt, [written file data])
  | Throw e => (Throw e, [])
  end.

Definition ensureDir (disk : fs.snapshot) (dir : fspath) : io unit :=
  await (fs.mkdir disk dir).

Definition readDirIfExists (disk : fs.snapshot) (dir : fspath)
  : io (list Dirent.t) :=
  match fs.readdir disk dir with
  | Ok entries => mret entries
  | Throw _ => mret []
  end.

(** The loop over the candidate file names: the first one [fs.access]
    accepts gives the public address, and the loop breaks. *)
Fixpoint firstAccessible (disk : fs.snapshot) (dir : fspath)
    (url : jsstring -> jsstring) (candidates : list jsstring) : option jsstring :=
  match candidates with
  | [] => None
  | c :: rest =>
      match fs.access disk (dir ++ [c]) with
      | Ok _ => Some (url c)
      | Throw _ => firstAccessible disk dir url rest
      end
  end.

Definition coverCandidates : list jsstring :=
  [js "cover.png"; js "cover.jpg"; js "cover.jpeg"; js "cover.webp"].

Definition photoCandidates : list jsstring :=
  [js "photo.png"; js "photo.jpg"; js "photo.jpeg"; js "photo.webp"].

(** [value ?? fallback] for a property that is a string when present. *)
Notation "v ?? d" := (default d v) (at level 40, only parsing).

Section Host.

(** [this.localeCompare(that, locales)]; [None] is a call without
    [locales], which compares in the default locale of the host. *)
Variable localeCompare : option jsstring -> jsstring -> jsstring -> Z.

(** [String.prototype.toLowerCase] on a string with a code unit from 128
    on, where the Unicode case tables of the host decide. *)
Variable unicodeLowerCase : jsstring -> jsstring.

Definition toLowerCase (s : jsstring) : jsstring :=
  if forallb (fun c => (c <? 128)%N) s
  then List.map (fun c => if ((65 <=? c) && (c <=? 90))%N then (c + 32)%N else c) s
  else unicodeLowerCase s.

(** A string is truthy when it is not empty, [null] is not. *)
Definition truthy (v : option jsstring) : bool :=
  match v with
  | Some (_ :: _) => true
  | _ => false
  end.

(** *** collectProjects *)

Definition projectsBase : fspath := CONTENT ++ [js "projects"].

Fixpoint projectsLoop (disk : fs.snapshot) (items : list Dirent.t)
    (out : list Project.t) : io (list Project.t) :=
  match items with
  | [] => mret out
  | dirent :: items' =>
      if negb (Dirent.isDirectory dirent) then projectsLoop disk items' out else
      let slug := Dirent.name dirent in
      let pdir := projectsBase ++ [slug] in
      let metaPath := pdir ++ [js "meta.txt"] in
      match fs.readFile disk metaPath with
      | Throw _ =>
          _ ← console (warn (js "There is no meta.txt in " ++ slug ++ js ", skipping.."));
          projectsLoop disk items' out
      | Ok metaTxt =>
          meta ← await (parseMetaTxt metaTxt);
          let cover :=
            firstAccessible disk pdir
              (fun c => js "/content/projects/" ++ slug ++ js "/" ++ c)
              coverCandidates in
          let gdir := pdir ++ [js "gallery"] in
          entries ← readDirIfExists disk gdir;
          let gallery :=
            List.map (fun g => js "/content/projects/" ++ slug ++ js "/gallery/"
                               ++ Dirent.name g)
                     (List.filter Dirent.isFile entries) in
          projectsLoop disk items'
            (out ++ [{|
               Project.slug := slug;
               Project.title := (meta !! js "title") ?? slug;
               Project.date := meta !! js "date";
               Project.tags :=
                 List.filter (fun s => negb (bool_decide (s = [])))
                   (List.map trim (split (js ",") ((meta !! js "tags") ?? [])));
               Project.status := (meta !! js "status") ?? js "active";
               Project.links := meta !! js "links";
               Project.cover := cover;
               Project.gallery := gallery;
               Project.description := (meta !! js "description") ?? [];
               Project.path := js "/content/projects/" ++ slug ++ js "/"
             |}])
      end
  end.

Definition projectsCompare (a b : Project.t) : Z :=
  if truthy (Project.date a) && truthy (Project.date b)
  then localeCompare None ((Project.date b) ?? []) ((Project.date a) ?? [])
  else if truthy (Project.date a) then -1
  else if truthy (Project.date b) then 1
  else localeCompare (Some (js "pl")) (Project.title a) (Project.title b).

Definition collectProjects (disk : fs.snapshot) : io (list Project.t) :=
  items ← readDirIfExists disk projectsBase;
  out ← projectsLoop disk items [];
  mret (sort projectsCompare out).

(** *** collectNews *)

Definition newsBase : fspath := CONTENT ++ [js "news"].

Fixpoint newsLoop (disk : fs.snapshot) (items : list Dirent.t)
    (out : list News.t) : io (list News.t) :=
  match items with
  | [] => mret out
  | dirent :: items' =>
      if negb (Dirent.isDirectory dirent) then newsLoop disk items' out else
      let slug := Dirent.name dirent in
      let ndir := newsBase ++ [slug] in
      let metaPath := ndir ++ [js "meta.txt"] in
      match fs.readFile disk metaPath with
      | Throw _ =>
          _ ← console (warn (js "There is no meta.txt in /" ++ slug ++ js ", skipping..."));
          newsLoop disk items' out
      | Ok metaTxt =>
          meta ← await (parseMetaTxt metaTxt);
          let cover :=
            firstAccessible disk ndir
              (fun c => js "/content/news/" ++ slug ++ js "/" ++ c)
              coverCandidates in
          newsLoop disk items'
            (out ++ [{|
               News.slug := slug;
               News.title := (meta !! js "title") ?? slug;
               News.date := meta !! js "date";
               News.author := (meta !! js "author") ?? js "Skylink";
               News.cover := cover;
               News.description := (meta !! js "description") ?? [];
               News.path := js "/content/news/" ++ slug ++ js "/"
             |}])
      end
  end.

Definition newsCompare (a b : News.t) : Z :=
  if truthy (News.date a) && truthy (News.date b)
  then localeCompare None ((News.date b) ?? []) ((News.date a) ?? [])
  else localeCompare None (News.slug a) (News.slug b).

Definition collectNews (disk : fs.snapshot) : io (list News.t) :=
  items ← readDirIfExists disk newsBase;
  out ← newsLoop disk items [];
  mret (sort newsCompare out).

(** *** collectTeam *)

Definition teamBase : fspath := CONTENT ++ [js "team"].

Fixpoint teamLoop (disk : fs.snapshot) (items : list Dirent.t)
    (out : list TeamMember.t) : io (list TeamMember.t) :=
  match items with
  | [] => mret out
  | dirent :: items' =>
      if negb (Dirent.isDirectory dirent) then teamLoop disk items' out else
      let slug := Dirent.name dirent in
      let tdir := teamBase ++ [slug] in
      let metaPath := tdir ++ [js "meta.txt"] in
      match fs.readFile disk metaPath with
      | Throw _ =>
          _ ← console (warn (js "There is no meta.txt in " ++ slug ++ js ", skipping.."));
          teamLoop disk items' out
      | Ok metaTxt =>
          meta ← await (parseMetaTxt metaTxt);
          let photo :=
            firstAccessible disk tdir
              (fun c => js "/content/team/" ++ slug ++ js "/" ++ c)
              photoCandidates in
          teamLoop disk items'
            (out ++ [{|
               TeamMember.slug := slug;
               TeamMember.name := (meta !! js "name") ?? slug;
               TeamMember.role := (meta !! js "role") ?? [];
               TeamMember.email := (meta !! js "email") ?? [];
               TeamMember.links := (meta !! js "links") ?? [];
               TeamMember.photo := photo;
               TeamMember.bio := (meta !! js "description") ?? []
             |}])
      end
  end.

(** [Object.entries(rolePriority)]: the keys in the order they are written. *)
Definition rolePriority : list (jsstring * Z) :=
  [(js "president", 3); (js "leader", 2); (js "head", 1)].

(** [Object.entries(rolePriority).find(([key]) => role.includes(key))?.[1] ?? 0] *)
Definition roleScore (role : jsstring) : Z :=
  match List.find (fun entry => includes (fst entry) role) rolePriority with
  | Some entry => snd entry
  | None => 0
  end.

Definition teamCompare (a b : TeamMember.t) : Z :=
  let aRole := toLowerCase (TeamMember.role a) in
  let bRole := toLowerCase (TeamMember.role b) in
  let aScore := roleScore aRole in
  let bScore := roleScore bRole in
  if negb (aScore =? bScore) then bScore - aScore
  else localeCompare (Some (js "pl")) (TeamMember.name a) (TeamMember.name b).

Definition collectTeam (disk : fs.snapshot) : io (list TeamMember.t) :=
  items ← readDirIfExists disk teamBase;
  out ← teamLoop disk items [];
  mret (sort teamCompare out).

(** *** collectStats *)

Definition statsFile : fspath := CONTENT ++ [js "stats"; js "stats.txt"].

(** The body of the loop over the lines of the stats document. *)
Definition statsLine (map : gmap jsstring StatValue) (line : jsstring)
  : gmap jsstring StatValue :=
  match trim line with
  | [] => map
  | _ :: _ =>
      match indexOf COLON line with
      | None => map
      | Some idx =>
          let key := trim (slice_to idx line) in
          let valueRaw := trim (slice_from (idx + 1) line) in
          let num := Number valueRaw in
          setProperty key
            (if isFinite num then NumberValue num else StringValue valueRaw) map
      end
  end.

Definition collectStats (disk : fs.snapshot) : io (gmap jsstring StatValue) :=
  match fs.readFile disk statsFile with
  | Ok txt => mret (foldl statsLine ∅ (splitLines txt))
  | Throw _ => mret ∅
  end.

(** *** main *)

(** [Promise.all] starts the four collectors together; on a snapshot they
    do not affect each other and none of them rejects, so their results
    are those of running them one after the other. *)
Definition main (disk : fs.snapshot) : io unit :=
  _ ← ensureDir disk PUBLIC_DATA;
  projects ← collectProjects disk;
  news ← collectNews disk;
  team ← collectTeam disk;
  stats ← collectStats disk;
  _ ← writeJson disk (PUBLIC_DATA ++ [js "projects.json"]) (ProjectsJson projects);
  _ ← writeJson disk (PUBLIC_DATA ++ [js "news.json"]) (NewsJson news);
  _ ← writeJson disk (PUBLIC_DATA ++ [js "team.json"]) (TeamJson team);
  _ ← writeJson disk (PUBLIC_DATA ++ [js "stats.json"]) (StatsJson stats);
  console (log (js "Generated /public/data/*.json")).

(** [main().catch(err => { console.error(err); process.exit(1); })]: the
    exit status of the process and what it printed. *)
Definition run (disk : fs.snapshot) : Z * list Event :=
  match main disk with
  | (Ok _, out) => (0, out)
  | (Throw e, out) => (1, out ++ [error e])
  end.

End Host.

(** One assignment of a run of them, as a step of a fold. *)
Definition setPair {V} (obj : gmap jsstring V) (kv : jsstring * V) : gmap jsstring V :=
  setProperty kv.1 kv.2 obj.

(** ** The header of a metadata document, line by line *)

(** The [key: value] reading of one line: none for a blank line and for a
    line without a colon, else the text before the first colon and the
    text after it, both trimmed. *)
Definition keyValue (line : jsstring) : option (jsstring * jsstring) :=
  match trim line with
  | [] => None
  | _ :: _ =>
      idx ← indexOf COLON line;
      Some (trim (slice_to idx line), trim (slice_from (idx + 1) line))
  end.

(** The [key: value] lines of a header, in the order of the text. *)
Definition headerPairs (headRaw : jsstring) : list (jsstring * jsstring) :=
  omap keyValue (splitLines headRaw).

(** The value of the last pair with the given key. *)
Definition lastValue {V} (key : jsstring) (pairs : list (jsstring * V)) : option V :=
  snd <$> List.find (fun kv => bool_decide (kv.1 = key)) (rev pairs).

(** A metadata document whose only header line has the key [__proto__]. *)
Definition protoDocument : jsstring :=
  js "__proto__: x" ++ DELIMITER ++ js "body".

(** ** Comparisons used in the statements *)

(** The comparison of two strings by their code units, as the operators
    [<] and [>] of the language compare them: negative, zero or positive. *)
Fixpoint codeUnitCompare (a b : jsstring) : Z :=
  match a, b with
  | [], [] => 0
  | [], _ :: _ => -1
  | _ :: _, [] => 1
  | x :: a', y :: b' =>
      if (x <? y)%N then -1 else if (y <? x)%N then 1 else codeUnitCompare a' b'
  end.

(** A host comparison in the manner of the Unicode collation on the
    letters and digits below 128: strings compare without regard to case
    first, and when that ties a small letter goes before its capital.
    The locale is not looked at. *)
Definition sampleLocaleCompare (locales : option jsstring) (this that : jsstring) : Z :=
  let fold := List.map (fun c => if ((65 <=? c) && (c <=? 90))%N then (c + 32)%N else c) in
  let primary := codeUnitCompare (fold this) (fold that) in
  if (primary =? 0)%Z then codeUnitCompare that this else primary.

(** A host without case tables beyond the letters below 128. *)
Definition sampleUnicodeLowerCase (s : jsstring) : jsstring := s.

(** A record has a date when its [date] is a string that is not empty. *)
Definition projectHasDate (r : Project.t) : bool := truthy (Project.date r).
Definition newsHasDate (r : News.t) : bool := truthy (News.date r).

(** Two projects dated in words, and two undated news items. *)
Definition projectDated (slug date : jsstring) : Project.t :=
  {| Project.slug := slug; Project.title := slug; Project.date := Some date;
     Project.tags := []; Project.status := js "active"; Project.links := None;
     Project.cover := None; Project.gallery := []; Project.description := [];
     Project.path := js "/content/projects/" ++ slug ++ js "/" |}.

Definition projectUndated (slug title : jsstring) : Project.t :=
  {| Project.slug := slug; Project.title := title; Project.date := None;
     Project.tags := []; Project.status := js "active"; Project.links := None;
     Project.cover := None; Project.gallery := []; Project.description := [];
     Project.path := js "/content/projects/" ++ slug ++ js "/" |}.

Definition newsItem (slug : jsstring) (date : option jsstring) : News.t :=
  {| News.slug := slug; News.title := slug; News.date := date;
     News.author := js "Skylink"; News.cover := None; News.description := [];
     News.path := js "/content/news/" ++ slug ++ js "/" |}.

Definition member (slug role : jsstring) : TeamMember.t :=
  {| TeamMember.slug := slug; TeamMember.name := slug; TeamMember.role := role;
     TeamMember.email := []; TeamMember.links := []; TeamMember.photo := None;
     TeamMember.bio := [] |}.

(** ** The collectors, item by item *)

(** The entries a collector goes through: those of the listing, and none
    when the listing fails. *)
Definition listing (disk : fs.snapshot) (dir : fspath) : list Dirent.t :=
  match fs.readdir disk dir with
  | Ok entries => entries
  | Throw _ => []
  end.

(** The same disk with another listing of one directory. *)
Definition withListing (disk : fs.snapshot) (dir : fspath) (entries : list Dirent.t)
  : fs.snapshot :=
  {| fs.readdir := fun p => if bool_decide (p = dir) then Ok entries else fs.readdir disk p;
     fs.readFile := fs.readFile disk;
     fs.access := fs.access disk;
     fs.mkdir := fs.mkdir disk;
     fs.writeFile := fs.writeFile disk |}.

Definition metaPath (base : fspath) (slug : jsstring) : fspath :=
  (base ++ [slug]) ++ [js "meta.txt"].

Definition parsed (txt : jsstring) : gmap jsstring jsstring :=
  match parseMetaTxt txt with
  | Ok meta => meta
  | Throw _ => ∅
  end.

(** The record of the item in the subdirectory [slug] with the metadata
    document [txt], for each collection. *)
Definition projectOf (disk : fs.snapshot) (slug txt : jsstring) : Project.t :=
  let meta := parsed txt in
  {| Project.slug := slug;
     Project.title := default slug (meta !! js "title");
     Project.date := meta !! js "date";
     Project.tags :=
       List.filter (fun s => negb (bool_decide (s = [])))
         (List.map trim (split (js ",") (default [] (meta !! js "tags"))));
     Project.status := default (js "active") (meta !! js "status");
     Project.links := meta !! js "links";
     Project.cover :=
       firstAccessible disk (projectsBase ++ [slug])
         (fun c => js "/content/projects/" ++ slug ++ js "/" ++ c) coverCandidates;
     Project.gallery :=
       List.map (fun g => js "/content/projects/" ++ slug ++ js "/gallery/" ++ Dirent.name g)
         (List.filter Dirent.isFile (listing disk ((projectsBase ++ [slug]) ++ [js "gallery"])));
     Project.description := default [] (meta !! js "description");
     Project.path := js "/content/projects/" ++ slug ++ js "/" |}.

Definition newsOf (disk : fs.snapshot) (slug txt : jsstring) : News.t :=
  let meta := parsed txt in
  {| News.slug := slug;
     News.title := default slug (meta !! js "title");
     News.date := meta !! js "date";
     News.author := default (js "Skylink") (meta !! js "author");
     News.cover :=
       firstAccessible disk (newsBase ++ [slug])
         (fun c => js "/content/news/" ++ slug ++ js "/" ++ c) coverCandidates;
     News.description := default [] (meta !! js "description");
     News.path := js "/content/news/" ++ slug ++ js "/" |}.

Definition memberOf (disk : fs.snapshot) (slug txt : jsstring) : TeamMember.t :=
  let meta := parsed txt in
  {| TeamMember.slug := slug;
     TeamMember.name := default slug (meta !! js "name");
     TeamMember.role := default [] (meta !! js "role");
     TeamMember.email := default [] (meta !! js "email");
     TeamMember.links := default [] (meta !! js "links");
     TeamMember.photo :=
       firstAccessible disk (teamBase ++ [slug])
         (fun c => js "/content/team/" ++ slug ++ js "/" ++ c) photoCandidates;
     TeamMember.bio := default [] (meta !! js "description") |}.

(** What one entry of the listing adds to the array: the record of a
    directory whose metadata document is read, and nothing otherwise. *)
Definition itemOf {R} (disk : fs.snapshot) (base : fspath)
    (build : jsstring -> jsstring -> R) (dirent : Dirent.t) : option R :=
  if Dirent.isDirectory dirent then
    match fs.readFile disk (metaPath base (Dirent.name dirent)) with
    | Ok txt => Some (build (Dirent.name dirent) txt)
    | Throw _ => None
    end
  else None.

(** What one entry of the listing prints: the warning about a directory
    whose metadata document is not read, and nothing otherwise. *)
Definition warningOf (disk : fs.snapshot) (base : fspath)
    (message : jsstring -> jsstring) (dirent : Dirent.t) : option Event :=
  if Dirent.isDirectory dirent then
    match fs.readFile disk (metaPath base (Dirent.name dirent)) with
    | Ok _ => None
    | Throw _ => Some (warn (message (Dirent.name dirent)))
    end
  else None.

Definition projectsWarning (slug : jsstring) : jsstring :=
  js "There is no meta.txt in " ++ slug ++ js ", skipping..".
Definition newsWarning (slug : jsstring) : jsstring :=
  js "There is no meta.txt in /" ++ slug ++ js ", skipping...".
Definition teamWarning (slug : jsstring) : jsstring :=
  js "There is no meta.txt in " ++ slug ++ js ", skipping..".

(** ** Sample disks *)

Definition lookupPath {V} (p : fspath) (table : list (fspath * V)) : option V :=
  snd <$> List.find (fun e => bool_decide (e.1 = p)) table.

(** A disk with the given directories and files and nothing else, on
    which the output can be written. *)
Definition sampleDisk (dirs : list (fspath * list Dirent.t))
    (files : list (fspath * jsstring)) : fs.snapshot :=
  {| fs.readdir := fun p =>
       match lookupPath p dirs with
       | Some entries => Ok entries
       | None => Throw (SystemError ENOENT)
       end;
     fs.readFile := fun p =>
       match lookupPath p files with
       | Some txt => Ok txt
       | None => Throw (SystemError ENOENT)
       end;
     fs.access := fun p =>
       match lookupPath p files, lookupPath p dirs with
       | None, None => Throw (SystemError ENOENT)
       | _, _ => Ok tt
       end;
     fs.mkdir := fun _ => Ok tt;
     fs.writeFile := fun _ _ => Ok tt |}.

(** A disk on which every read of the content tree is refused. *)
Definition deniedDisk : fs.snapshot :=
  {| fs.readdir := fun _ => Throw (SystemError EACCES);
     fs.readFile := fun _ => Throw (SystemError EACCES);
     fs.access := fun _ => Throw (SystemError EACCES);
     fs.mkdir := fun _ => Ok tt;
     fs.writeFile := fun _ _ => Ok tt |}.

(** ** What is asked of a collector *)

(** A subdirectory whose metadata document is not read gives no record,
    the records of its siblings are in the array, and the array is the
    one of a disk on which that subdirectory is not listed. *)
Definition skipsUnreadableItems {R} (collect : fs.snapshot -> io (list R))
    (base : fspath) (build : fs.snapshot -> jsstring -> jsstring -> R)
    (slugOf : R -> jsstring) : Prop :=
  forall disk before dirent after e,
    fs.readdir disk base = Ok (before ++ dirent :: after) ->
    Dirent.isDirectory dirent = true ->
    fs.readFile disk (metaPath base (Dirent.name dirent)) = Throw e ->
    exists out,
      (collect disk).1 = Ok out /\
      (forall r, r ∈ out -> slugOf r <> Dirent.name dirent) /\
      (forall sibling txt,
          sibling ∈ before ++ after ->
          Dirent.isDirectory sibling = true ->
          fs.readFile disk (metaPath base (Dirent.name sibling)) = Ok txt ->
          build disk (Dirent.name sibling) txt ∈ out) /\
      (collect (withListing disk base (before ++ after))).1 = Ok out.

(** Every record is that of a directory of the listing, and an entry
    that is not a directory changes neither the array nor the events,
    whatever the disk holds under its name. *)
Definition skipsNonDirectories {R} (collect : fs.snapshot -> io (list R))
    (base : fspath) (slugOf : R -> jsstring) : Prop :=
  (forall disk out r,
      (collect disk).1 = Ok out -> r ∈ out ->
      exists dirent,
        dirent ∈ listing disk base /\
        Dirent.type dirent = Directory /\
        Dirent.name dirent = slugOf r) /\
  (forall disk before dirent after,
      fs.readdir disk base = Ok (before ++ dirent :: after) ->
      Dirent.type dirent <> Directory ->
      collect disk = collect (withListing disk base (before ++ after))).

(** The stats mapping of a disk. *)
Definition statsOf (disk : fs.snapshot) : gmap jsstring StatValue :=
  match fs.readFile disk statsFile with
  | Ok txt => foldl statsLine ∅ (splitLines txt)
  | Throw _ => ∅
  end.

Definition directory (name : jsstring) : Dirent.t :=
  {| Dirent.name := name; Dirent.type := Directory |}.

(** A content tree with three project directories, of which [broken] has
    no metadata document, and a symbolic link [linked] to a directory
    that has one; [alpha] has a cover in JPEG only. *)
Definition contentDisk : fs.snapshot :=
  sampleDisk
    [(projectsBase,
      [directory (js "alpha"); directory (js "broken");
       {| Dirent.name := js "linked"; Dirent.type := SymbolicLink |};
       directory (js "beta")]);
     (projectsBase ++ [js "alpha"], []);
     (projectsBase ++ [js "broken"], []);
     (projectsBase ++ [js "beta"], [])]
    [(metaPath projectsBase (js "alpha"), js "title: Alpha" ++ DELIMITER ++ js "First.");
     (metaPath projectsBase (js "beta"), js "title: Beta");
     (metaPath projectsBase (js "linked"), js "title: Linked");
     (projectsBase ++ [js "alpha"; js "cover.jpg"], js "JFIF")].

(** The stored form of the trimmed value of a stats line. *)
Definition statValue (valueRaw : jsstring) : StatValue :=
  if isFinite (Number valueRaw) then NumberValue (Number valueRaw)
  else StringValue valueRaw.

(** A disk whose content tree is the stats document alone. *)
Definition statsDisk (txt : jsstring) : fs.snapshot :=
  sampleDisk [] [(statsFile, txt)].

(** ** The two parts of a metadata document *)

(** The text before the first delimiter, or the whole text without one. *)
Definition headerOf (txt : jsstring) : jsstring :=
  match indexOf DELIMITER txt with
  | Some i => take i txt
  | None => txt
  end.

(** The trimmed text after the first delimiter, or nothing without one. *)
Definition bodyOf (txt : jsstring) : jsstring :=
  match indexOf DELIMITER txt with
  | Some i => trim (drop (i + length DELIMITER) txt)
  | None => []
  end.

(** Every line feed of the text comes after a carriage return, [prev]
    being the code unit before the text: the text of a file saved with
    CRLF line ends. *)
Fixpoint noBareLF (prev : N) (s : jsstring) : bool :=
  match s with
  | [] => true
  | c :: s' => (negb (c =? LF)%N || (prev =? CR)%N) && noBareLF c s'
  end.

(** A host that compares strings by their code units, in every locale. *)
Definition plainLocaleCompare (locales : option jsstring) (this that : jsstring) : Z :=
  codeUnitCompare this that.

(** Every directory of the listing is accounted for: it gives a record or
    a warning, and nothing else is printed. *)
Definition accountsForDirectories {R} (collect : fs.snapshot -> io (list R))
    (base : fspath) (message : jsstring -> jsstring) : Prop :=
  forall disk out events,
    collect disk = (Ok out, events) ->
    (length out + length events
     = length (List.filter Dirent.isDirectory (listing disk base)))%nat /\
    forall e, e ∈ events ->
      exists dirent err,
        dirent ∈ listing disk base /\ Dirent.type dirent = Directory /\
        fs.readFile disk (metaPath base (Dirent.name dirent)) = Throw err /\
        e = warn (message (Dirent.name dirent)).

(** A content tree with a news item [launch], a news directory [draft]
    without metadata, two team members, and a project [rover] with tags
    and a gallery that holds two pictures and a subdirectory. *)
Definition siteDisk : fs.snapshot :=
  sampleDisk
    [(newsBase, [directory (js "launch"); directory (js "draft")]);
     (teamBase, [directory (js "ola"); directory (js "jan")]);
     (projectsBase, [directory (js "rover")]);
     ((projectsBase ++ [js "rover"]) ++ [js "gallery"],
      [{| Dirent.name := js "1.png"; Dirent.type := RegularFile |};
       directory (js "raw");
       {| Dirent.name := js "2.png"; Dirent.type := RegularFile |}])]
    [(metaPath newsBase (js "launch"),
      js "title: Launch" ++ [LF] ++ js "date: 2024-05-01" ++ DELIMITER ++ js "We fly.");
     (metaPath teamBase (js "ola"), js "name: Ola" ++ [LF] ++ js "role: Team Leader");
     (metaPath teamBase (js "jan"), js "role: President");
     (metaPath projectsBase (js "rover"),
      js "title: Rover" ++ [LF] ++ js "tags: a, b ,, c" ++ DELIMITER ++ js "Wheels.")].

(** The array a collector resolves with. *)
Definition collected {A} (outcome : io (list A)) : list A :=
  match outcome.1 with
  | Ok arr => arr
  | Throw _ => []
  end.


Definition readOnlyDisk : fs.snapshot :=
  {| fs.readdir := fs.readdir contentDisk;
     fs.readFile := fs.readFile contentDisk;
     fs.access := fs.access contentDisk;
     fs.mkdir := fun _ => Throw (SystemError EROFS);
     fs.writeFile := fun _ _ => Throw (SystemError EROFS) |}.

(** * Properties *)

(** ** Strings: prefixes, [indexOf], [split] and [join] *)

Lemma startsWith_app (p k : jsstring) : startsWith p (p ++ k) = true.
Proof.
  induction p as [|a p IH]; simpl; [done|].
  by rewrite N.eqb_refl, IH.
Qed.

Lemma startsWith_true (p s : jsstring) :
  startsWith p s = true -> s = p ++ drop (length p) s.
Proof.
  revert s. induction p as [|a p IH]; intros [|b s] H; simpl in *; try done.
  apply andb_true_iff in H as [Hab Hps].
  apply N.eqb_eq in Hab as ->. f_equal. by apply IH.
Qed.

Lemma indexOf_unfold (needle s : jsstring) :
  indexOf needle s =
  if startsWith needle s then Some 0%nat
  else match s with
       | [] => None
       | _ :: s' => S <$> indexOf needle s'
       end.
Proof. by destruct s. Qed.

(** [indexOf] gives the first position at which the needle starts. *)
Lemma indexOf_Some (needle s : jsstring) (i : nat) :
  indexOf needle s = Some i ->
  startsWith needle (drop i s) = true /\
  forall j, (j < i)%nat -> startsWith needle (drop j s) = false.
Proof.
  revert i. induction s as [|c s IH]; intros i; rewrite indexOf_unfold.
  - destruct (startsWith needle []) eqn:E; [|done].
    intros [= <-]. split; [done|lia].
  - destruct (startsWith needle (c :: s)) eqn:E.
    + intros [= <-]. split; [done|lia].
    + destruct (indexOf needle s) as [k|] eqn:Ek; [|done].
      intros [= <-]. destruct (IH k eq_refl) as [H1 H2].
      split; [done|]. intros [|j] Hj; [done|]. simpl. apply H2. lia.
Qed.

Lemma indexOf_None (needle s : jsstring) :
  indexOf needle s = None ->
  forall j, startsWith needle (drop j s) = false.
Proof.
  induction s as [|c s IH]; rewrite indexOf_unfold.
  - destruct (startsWith needle []) eqn:E; [done|].
    intros _ j. by rewrite drop_nil.
  - destruct (startsWith needle (c :: s)) eqn:E; [done|].
    destruct (indexOf needle s) eqn:Ek; [done|].
    intros _ [|j]; [done|]. simpl. by apply IH.
Qed.

(** A string in which the needle occurs has a first occurrence. *)
Lemma indexOf_occurs (needle h r : jsstring) :
  is_Some (indexOf needle (h ++ needle ++ r)).
Proof.
  destruct (indexOf needle (h ++ needle ++ r)) eqn:E; [by eexists|].
  pose proof (indexOf_None _ _ E (length h)) as H.
  by rewrite drop_app_length, startsWith_app in H.
Qed.

Lemma indexOf_decompose (needle s : jsstring) (i : nat) :
  indexOf needle s = Some i ->
  s = take i s ++ needle ++ drop (i + length needle) s.
Proof.
  intros [H _]%indexOf_Some. apply startsWith_true in H.
  rewrite drop_drop in H. by rewrite <- H, take_drop.
Qed.

Lemma split_from_skip (sep p r : jsstring) :
  split_from sep (length p) (p ++ r) = split_from sep 0 r.
Proof. induction p as [|a p IH]; simpl; [done|]. apply IH. Qed.

(** The first piece ends where the separator first occurs, and the other
    pieces are those of the text after it. *)
Lemma split_from_first (sep h r : jsstring) :
  sep <> [] ->
  (forall j, (j < length h)%nat -> startsWith sep (drop j (h ++ sep ++ r)) = false) ->
  split_from sep 0 (h ++ sep ++ r) = (h, split sep r).
Proof.
  intros Hsep. induction h as [|a h IH]; intros Hfirst.
  - destruct sep as [|c sep']; [done|].
    change ([] ++ (c :: sep') ++ r) with (c :: (sep' ++ r)).
    cbn [split_from]. change (c :: sep' ++ r) with ((c :: sep') ++ r).
    rewrite startsWith_app.
    replace (length (c :: sep') - 1)%nat with (length sep') by (simpl; lia).
    rewrite split_from_skip. unfold split. by destruct (split_from _ 0 r).
  - simpl app. cbn [split_from].
    pose proof (Hfirst 0%nat ltac:(simpl; lia)) as H0. simpl in H0.
    rewrite H0. rewrite IH; [done|].
    intros j Hj. apply (Hfirst (S j)). simpl. lia.
Qed.

Lemma split_none (sep s : jsstring) :
  indexOf sep s = None -> split sep s = [s].
Proof.
  intros H. unfold split.
  assert (split_from sep 0 s = (s, [])) as ->; [|done].
  induction s as [|c s IH]; [done|].
  rewrite indexOf_unfold in H. cbn [split_from].
  destruct (startsWith sep (c :: s)); [done|].
  destruct (indexOf sep s); [done|]. by rewrite IH.
Qed.

Lemma join_cons_head (sep : jsstring) (c : N) (h : jsstring) (t : list jsstring) :
  join sep ((c :: h) :: t) = c :: join sep (h :: t).
Proof. by destruct t. Qed.

Lemma join_split_from (sep : jsstring) :
  sep <> [] ->
  forall s k, join sep ((split_from sep k s).1 :: (split_from sep k s).2) = drop k s.
Proof.
  intros Hsep. induction s as [|c s IH]; intros k.
  - by rewrite drop_nil.
  - destruct k as [|k]; cbn [split_from].
    + destruct (startsWith sep (c :: s)) eqn:E.
      * specialize (IH (length sep - 1)%nat).
        destruct (split_from sep (length sep - 1) s) as [h t]. simpl in *.
        rewrite IH. apply startsWith_true in E.
        destruct sep as [|c' sep']; [done|]. simpl in *.
        by rewrite Nat.sub_0_r.
      * specialize (IH 0%nat).
        destruct (split_from sep 0 s) as [h t]. cbn [fst snd] in *.
        by rewrite join_cons_head, IH.
    + apply IH.
Qed.

(** Joining the pieces with the separator gives the text back. *)
Lemma join_split (sep s : jsstring) : sep <> [] -> join sep (split sep s) = s.
Proof.
  intros Hsep. pose proof (join_split_from sep Hsep s 0) as H.
  unfold split. by destruct (split_from sep 0 s).
Qed.

Lemma split_not_nil (sep s : jsstring) : split sep s <> [].
Proof. unfold split. by destruct (split_from sep 0 s). Qed.

(** ** Dictionaries filled by assignment *)

Lemma lookup_setProperty {V} (key k : jsstring) (v : V) (obj : gmap jsstring V) :
  setProperty key v obj !! k =
  if bool_decide (key = k /\ key <> PROTO) then Some v else obj !! k.
Proof.
  unfold setProperty.
  destruct (decide (key = PROTO)) as [Hp|Hp].
  - rewrite (bool_decide_eq_true_2 _ Hp).
    rewrite bool_decide_eq_false_2; [done|]. by intros [_ ?].
  - rewrite (bool_decide_eq_false_2 _ Hp).
    destruct (decide (key = k)) as [->|Hk].
    + rewrite bool_decide_eq_true_2 by done. apply lookup_insert_eq.
    + rewrite bool_decide_eq_false_2 by (by intros [? _]).
      by apply lookup_insert_ne.
Qed.

(** After a run of assignments a key other than [__proto__] holds the
    value last assigned to it. *)
Lemma lookup_foldl_setPair {V} (pairs : list (jsstring * V)) (obj : gmap jsstring V)
    (k : jsstring) :
  k <> PROTO ->
  foldl setPair obj pairs !! k =
  match lastValue k pairs with
  | Some v => Some v
  | None => obj !! k
  end.
Proof.
  intros Hk. revert obj. induction pairs as [|[key v] pairs IH] using rev_ind; intros obj.
  - done.
  - rewrite foldl_app. simpl. unfold setPair at 1. simpl.
    rewrite lookup_setProperty. unfold lastValue. rewrite rev_app_distr. simpl.
    destruct (decide (key = k)) as [->|Hne].
    + rewrite !bool_decide_eq_true_2; done.
    + rewrite !bool_decide_eq_false_2; [apply IH|done|by intros [? _]].
Qed.

(** The key [__proto__] is never set. *)
Lemma lookup_foldl_setPair_proto {V} (pairs : list (jsstring * V))
    (obj : gmap jsstring V) :
  foldl setPair obj pairs !! PROTO = obj !! PROTO.
Proof.
  revert obj. induction pairs as [|[key v] pairs IH]; intros obj; [done|].
  simpl. rewrite IH. unfold setPair. simpl. rewrite lookup_setProperty.
  rewrite bool_decide_eq_false_2; [done|]. by intros [-> ?].
Qed.

Lemma lastValue_is_Some {V} (k : jsstring) (pairs : list (jsstring * V)) :
  is_Some (lastValue k pairs) <-> k ∈ pairs.*1.
Proof.
  unfold lastValue. rewrite fmap_is_Some. split.
  - intros [[k' v] H]. apply find_some in H as [Hin Hk].
    apply bool_decide_eq_true in Hk. simpl in Hk.
    apply list_elem_of_fmap. exists (k', v). split; [done|].
    apply list_elem_of_In. by apply in_rev.
  - intros [[k' v] [-> Hin]]%list_elem_of_fmap.
    destruct (List.find _ (rev pairs)) eqn:E; [by eexists|].
    assert (In (k', v) (rev pairs)) as Hrev.
    { apply in_rev. rewrite rev_involutive. by apply list_elem_of_In. }
    pose proof (find_none _ _ E (k', v) Hrev) as E'.
    simpl in E'. by apply bool_decide_eq_false in E'.
Qed.

(** The keys of the dictionary are the assigned keys but [__proto__]. *)
Lemma dom_foldl_setPair {V} (pairs : list (jsstring * V)) :
  dom (foldl setPair (∅ : gmap jsstring V) pairs)
  = list_to_set pairs.*1 ∖ ({[PROTO]} : gset jsstring).
Proof.
  apply set_eq. intros k. rewrite elem_of_dom, elem_of_difference,
    elem_of_list_to_set, elem_of_singleton.
  destruct (decide (k = PROTO)) as [->|Hk].
  - rewrite lookup_foldl_setPair_proto, lookup_empty.
    split; [by intros []|by intros [_ []]].
  - rewrite lookup_foldl_setPair, lookup_empty by done.
    rewrite <- lastValue_is_Some. split.
    + intros H. split; [|done].
      destruct (lastValue k pairs); [by eexists|by destruct H].
    + intros [[v Hv] _]. rewrite Hv. by eexists.
Qed.

(** ** parseMetaTxt *)

Lemma headLine_keyValue (head : gmap jsstring jsstring) (line : jsstring) :
  headLine head line =
  match keyValue line with
  | Some kv => setPair head kv
  | None => head
  end.
Proof.
  unfold headLine, keyValue. destruct (trim line); [done|].
  by destruct (indexOf COLON line).
Qed.

Lemma foldl_headLine (lines : list jsstring) (head : gmap jsstring jsstring) :
  foldl headLine head lines = foldl setPair head (omap keyValue lines).
Proof.
  revert head. induction lines as [|line lines IH]; intros head; [done|].
  simpl. rewrite headLine_keyValue. destruct (keyValue line); simpl; apply IH.
Qed.

(** The header loop assigns the [key: value] lines in order. *)
Lemma parseHead_pairs (headRaw : jsstring) :
  parseHead headRaw = foldl setPair ∅ (headerPairs headRaw).
Proof. apply foldl_headLine. Qed.

Lemma DELIMITER_not_nil : DELIMITER <> [].
Proof. done. Qed.

(** With a delimiter: the header is the text before its first occurrence,
    the body the trimmed text after it, further delimiters included. *)
Lemma parseMetaTxt_delimited (txt : jsstring) (i : nat) :
  indexOf DELIMITER txt = Some i ->
  parseMetaTxt txt =
  Ok (<[DESCRIPTION := trim (drop (i + length DELIMITER) txt)]> (parseHead (take i txt))).
Proof.
  intros Hi. unfold parseMetaTxt, split.
  pose proof (indexOf_decompose _ _ _ Hi) as Htxt.
  destruct (indexOf_Some _ _ _ Hi) as [_ Hfirst].
  assert (i <= length txt)%nat as Hlen.
  { destruct (decide (i <= length txt)%nat); [done|].
    apply indexOf_Some in Hi as [Hi _]. rewrite drop_ge in Hi by lia. done. }
  rewrite Htxt at 1. rewrite split_from_first; [|done|].
  - pose proof (join_split DELIMITER (drop (i + length DELIMITER) txt) DELIMITER_not_nil) as Hj.
    pose proof (split_not_nil DELIMITER (drop (i + length DELIMITER) txt)) as Hne.
    destruct (split DELIMITER (drop (i + length DELIMITER) txt)); [done|].
    by rewrite Hj.
  - intros j Hj. rewrite length_take in Hj. rewrite <- Htxt. apply Hfirst. lia.
Qed.

Lemma parseMetaTxt_undelimited (txt : jsstring) :
  indexOf DELIMITER txt = None ->
  parseMetaTxt txt = Ok (<[DESCRIPTION := []]> (parseHead txt)).
Proof. intros H. unfold parseMetaTxt. by rewrite split_none. Qed.

Lemma parseMetaTxt_total (txt : jsstring) : exists meta, parseMetaTxt txt = Ok meta.
Proof.
  unfold parseMetaTxt. pose proof (split_not_nil DELIMITER txt).
  destruct (split DELIMITER txt); [done|]. by eexists.
Qed.

(** What holds of a document with a delimiter: the keys are [description]
    and the keys of the header lines other than [__proto__], each with the
    value of its last line, and [description] is the trimmed text after
    the first delimiter. *)
Lemma parseMetaTxt_delimited_fields (txt : jsstring) (i : nat) :
  indexOf DELIMITER txt = Some i ->
  exists meta,
    parseMetaTxt txt = Ok meta /\
    meta !! DESCRIPTION = Some (trim (drop (i + length DELIMITER) txt)) /\
    dom meta = {[DESCRIPTION]} ∪
               (list_to_set (headerPairs (take i txt)).*1 ∖ ({[PROTO]} : gset jsstring)) /\
    forall k, k <> DESCRIPTION -> k <> PROTO ->
              meta !! k = lastValue k (headerPairs (take i txt)).
Proof.
  intros Hi. eexists. split; [by apply parseMetaTxt_delimited|].
  split; [apply lookup_insert_eq|]. split.
  - by rewrite dom_insert_L, parseHead_pairs, dom_foldl_setPair.
  - intros k Hk Hp. rewrite lookup_insert_ne by done.
    rewrite parseHead_pairs, lookup_foldl_setPair by done.
    rewrite lookup_empty. by destruct (lastValue k _).
Qed.

(** C2, at the document [__proto__: x], delimiter, [body]: the header has
    one [key: value] line, with the key [__proto__], the delimiter is
    found after it, and the parsed mapping has the key [description]
    alone: the key of the header line is not among its keys. *)
Theorem parseMetaTxt_loses_proto_key :
  indexOf DELIMITER protoDocument = Some 12%nat /\
  headerPairs (take 12 protoDocument) = [(js "__proto__", js "x")] /\
  parseMetaTxt protoDocument = Ok {[ DESCRIPTION := js "body" ]} /\
  js "__proto__" ∉ dom ({[ DESCRIPTION := js "body" ]} : gmap jsstring jsstring).
Proof.
  split; [reflexivity|]. split; [reflexivity|]. split.
  - vm_compute. reflexivity.
  - rewrite dom_singleton_L, elem_of_singleton. discriminate.
Qed.

(** C3: [parseMetaTxt] returns a mapping for every string, and for a
    string in which the delimiter does not occur the mapping is that of
    the header loop run over the whole text, with the empty string under
    [description]: every other key but [__proto__] holds the value of the
    last [key: value] line of the text with that key. *)
Theorem parseMetaTxt_without_delimiter (txt : jsstring) :
  (exists meta, parseMetaTxt txt = Ok meta) /\
  (indexOf DELIMITER txt = None ->
   parseMetaTxt txt = Ok (<[DESCRIPTION := []]> (parseHead txt)) /\
   forall meta, parseMetaTxt txt = Ok meta ->
     meta !! DESCRIPTION = Some [] /\
     forall k, k <> DESCRIPTION -> k <> PROTO ->
               meta !! k = lastValue k (headerPairs txt)).
Proof.
  split; [apply parseMetaTxt_total|]. intros Hnone.
  rewrite (parseMetaTxt_undelimited _ Hnone). split; [done|].
  intros meta [= <-]. split; [apply lookup_insert_eq|].
  intros k Hk Hp. rewrite lookup_insert_ne by done.
  rewrite parseHead_pairs, lookup_foldl_setPair by done.
  rewrite lookup_empty. by destruct (lastValue k _).
Qed.

Lemma parseMetaTxt_without_delimiter_witness :
  indexOf DELIMITER (js "title: Rover" ++ [LF] ++ js "note") = None /\
  parseMetaTxt (js "title: Rover" ++ [LF] ++ js "note")
  = Ok (<[DESCRIPTION := []]> (parseHead (js "title: Rover" ++ [LF] ++ js "note"))).
Proof.
  split; [reflexivity|].
  apply (proj2 (parseMetaTxt_without_delimiter _)). reflexivity.
Defined.

(** ** Array.prototype.sort *)

Lemma insertBy_Permutation {A} (compare : A -> A -> Z) (x : A) (l : list A) :
  insertBy compare x l ≡ₚ x :: l.
Proof.
  induction l as [|y l IH]; simpl; [done|].
  destruct (compare x y <=? 0); [done|].
  rewrite IH. apply Permutation_swap.
Qed.

(** Sorting rearranges the array and nothing else. *)
Lemma sort_Permutation {A} (compare : A -> A -> Z) (arr : list A) :
  sort compare arr ≡ₚ arr.
Proof.
  induction arr as [|x arr IH]; simpl; [done|].
  by rewrite insertBy_Permutation, IH.
Qed.

Lemma elem_of_sort {A} (compare : A -> A -> Z) (arr : list A) (x : A) :
  x ∈ sort compare arr <-> x ∈ arr.
Proof. by rewrite sort_Permutation. Qed.

Lemma insertBy_le {A} (compare : A -> A -> Z) (x y : A) (l : list A) :
  compare x y <= 0 -> insertBy compare x (y :: l) = x :: y :: l.
Proof. intros H. simpl. by rewrite (proj2 (Z.leb_le _ _) H). Qed.

Lemma insertBy_gt {A} (compare : A -> A -> Z) (x y : A) (l : list A) :
  0 < compare x y -> insertBy compare x (y :: l) = y :: insertBy compare x l.
Proof. intros H. simpl. by rewrite (proj2 (Z.leb_gt _ _) H). Qed.

(** The four orders of an array of four in which a comparator that puts
    [b] before [a] before [d] before [c] is consulted, one pair at a time. *)
Lemma sort_four {A} (compare : A -> A -> Z) (a b c d : A) (l : list A) :
  compare b a <= 0 -> compare b d <= 0 -> compare b c <= 0 ->
  compare a d <= 0 -> compare a c <= 0 -> compare d c <= 0 ->
  0 < compare a b -> 0 < compare d b -> 0 < compare c b ->
  0 < compare d a -> 0 < compare c a -> 0 < compare c d ->
  l ≡ₚ [a; b; c; d] ->
  sort compare l = [b; a; d; c].
Proof.
  intros Hba Hbd Hbc Had Hac Hdc Hab Hdb Hcb Hda Hca Hcd Hl.
  symmetry in Hl. apply permutations_Permutation in Hl.
  cbn in Hl.
  repeat (apply elem_of_cons in Hl as [->|Hl]);
    try (by apply elem_of_nil in Hl);
    unfold sort; cbn [foldr];
    repeat first
      [ rewrite insertBy_le by assumption
      | rewrite insertBy_gt by assumption
      | change (insertBy compare ?x []) with [x] ];
    reflexivity.
Qed.

(** An order that the comparator respects in both directions is the
    order of the sorted array, whatever else the comparator looks at. *)
Lemma sort_by_key {A} (compare : A -> A -> Z) (key : A -> Z) (arr : list A) :
  (forall x y, compare x y <= 0 -> key x <= key y) ->
  (forall x y, 0 < compare x y -> key y <= key x) ->
  StronglySorted (fun x y => key x <= key y) (sort compare arr).
Proof.
  intros Hle Hgt. induction arr as [|x arr IH]; simpl; [constructor|].
  revert IH. generalize (sort compare arr) as l. clear arr.
  induction l as [|y l IHl]; intros Hs; simpl.
  - repeat constructor.
  - apply StronglySorted_inv in Hs as [Hl Hy].
    destruct (compare x y <=? 0) eqn:E.
    + apply Z.leb_le in E. constructor; [by constructor|].
      constructor; [by apply Hle|].
      eapply Forall_impl; [exact Hy|]. intros z Hz. simpl in *.
      specialize (Hle _ _ E). lia.
    + apply Z.leb_gt in E. constructor; [by apply IHl|].
      rewrite insertBy_Permutation. constructor; [by apply Hgt|done].
Qed.

(** ** The sort comparators *)

Lemma includes_spec (needle s : jsstring) :
  includes needle s = true <-> exists h r, s = h ++ needle ++ r.
Proof.
  unfold includes. rewrite bool_decide_eq_true. split.
  - intros [i Hi]. apply indexOf_decompose in Hi. eauto.
  - intros (h & r & ->). apply indexOf_occurs.
Qed.

Section Comparators.

Variable localeCompare : option jsstring -> jsstring -> jsstring -> Z.
Variable unicodeLowerCase : jsstring -> jsstring.

Lemma teamCompare_differ (a b : TeamMember.t) :
  roleScore (toLowerCase unicodeLowerCase (TeamMember.role a))
  <> roleScore (toLowerCase unicodeLowerCase (TeamMember.role b)) ->
  teamCompare localeCompare unicodeLowerCase a b
  = roleScore (toLowerCase unicodeLowerCase (TeamMember.role b))
    - roleScore (toLowerCase unicodeLowerCase (TeamMember.role a)).
Proof.
  intros H. unfold teamCompare. apply Z.eqb_neq in H. by rewrite H.
Qed.

Lemma teamCompare_tie (a b : TeamMember.t) :
  roleScore (toLowerCase unicodeLowerCase (TeamMember.role a))
  = roleScore (toLowerCase unicodeLowerCase (TeamMember.role b)) ->
  teamCompare localeCompare unicodeLowerCase a b
  = localeCompare (Some (js "pl")) (TeamMember.name a) (TeamMember.name b).
Proof.
  intros H. unfold teamCompare. apply Z.eqb_eq in H. by rewrite H.
Qed.

Lemma projectsCompare_cases (a b : Project.t) :
  projectsCompare localeCompare a b =
  match projectHasDate a, projectHasDate b with
  | true, true =>
      localeCompare None (default [] (Project.date b)) (default [] (Project.date a))
  | true, false => -1
  | false, true => 1
  | false, false =>
      localeCompare (Some (js "pl")) (Project.title a) (Project.title b)
  end.
Proof.
  unfold projectsCompare, projectHasDate.
  by destruct (truthy (Project.date a)), (truthy (Project.date b)).
Qed.

End Comparators.

(** *** Projects *)

(** C4 as worded fails: on a host that compares letters without regard to
    case, of two projects dated [May 2024] and [april 2024] the comparator
    puts the first before the second, whereas the comparison of the two
    dates by code units, reversed, puts it after. *)
Lemma projectsCompare_not_code_unit_order :
  let a := projectDated (js "a") (js "May 2024") in
  let b := projectDated (js "b") (js "april 2024") in
  projectsCompare sampleLocaleCompare a b = -1 /\
  codeUnitCompare (default [] (Project.date b)) (default [] (Project.date a)) = 1.
Proof. split; reflexivity. Qed.

(** C4, amended: [projectsCompare] orders a pair of records as follows.
    When both have a date, by the comparison of the two date strings that
    the host makes without a locale ([localeCompare] with one argument),
    reversed; a record with a date goes before one without; when neither
    has a date, by the comparison of the titles in the locale [pl]. In the
    sorted array every record with a date is before every record without.
    On a host that puts [2024-01-01] before [2024-06-01] and, in [pl],
    [Alfa] before [Zeta], items A (date 2024-01-01), B (date 2024-06-01),
    C (no date, title Zeta) and D (no date, title Alfa), in whatever order
    they are found, are sorted to B, A, D, C. *)
Theorem projectsCompare_policy
    (localeCompare : option jsstring -> jsstring -> jsstring -> Z) :
  (forall a b da db,
      Project.date a = Some da -> Project.date b = Some db ->
      da <> [] -> db <> [] ->
      projectsCompare localeCompare a b = localeCompare None db da) /\
  (forall a b, projectHasDate a = true -> projectHasDate b = false ->
               projectsCompare localeCompare a b = -1) /\
  (forall a b, projectHasDate a = false -> projectHasDate b = true ->
               projectsCompare localeCompare a b = 1) /\
  (forall a b, projectHasDate a = false -> projectHasDate b = false ->
               projectsCompare localeCompare a b
               = localeCompare (Some (js "pl")) (Project.title a) (Project.title b)) /\
  (forall arr front back x y,
      sort (projectsCompare localeCompare) arr = front ++ back ->
      x ∈ front -> y ∈ back ->
      projectHasDate y = true -> projectHasDate x = true) /\
  (0 < localeCompare None (js "2024-06-01") (js "2024-01-01") ->
   localeCompare None (js "2024-01-01") (js "2024-06-01") < 0 ->
   localeCompare (Some (js "pl")) (js "Alfa") (js "Zeta") < 0 ->
   0 < localeCompare (Some (js "pl")) (js "Zeta") (js "Alfa") ->
   forall A B C D arr,
     Project.date A = Some (js "2024-01-01") ->
     Project.date B = Some (js "2024-06-01") ->
     projectHasDate C = false -> Project.title C = js "Zeta" ->
     projectHasDate D = false -> Project.title D = js "Alfa" ->
     arr ≡ₚ [A; B; C; D] ->
     sort (projectsCompare localeCompare) arr = [B; A; D; C]).
Proof.
  split; [|split; [|split; [|split; [|split]]]].
  - intros a b da db Ha Hb Hda Hdb. rewrite projectsCompare_cases.
    unfold projectHasDate. rewrite Ha, Hb. by destruct da, db.
  - intros a b Ha Hb. by rewrite projectsCompare_cases, Ha, Hb.
  - intros a b Ha Hb. by rewrite projectsCompare_cases, Ha, Hb.
  - intros a b Ha Hb. by rewrite projectsCompare_cases, Ha, Hb.
  - intros arr front back x y Hsort Hx Hin Hy.
    pose proof (sort_by_key (projectsCompare localeCompare)
                  (fun r => if projectHasDate r then 0 else 1) arr) as Hs.
    rewrite Hsort in Hs.
    assert (forall x y : Project.t,
               projectsCompare localeCompare x y <= 0 ->
               (if projectHasDate x then 0 else 1) <= (if projectHasDate y then 0 else 1)) as H1.
    { intros u v. rewrite projectsCompare_cases.
      destruct (projectHasDate u), (projectHasDate v); lia. }
    assert (forall x y : Project.t,
               0 < projectsCompare localeCompare x y ->
               (if projectHasDate y then 0 else 1) <= (if projectHasDate x then 0 else 1)) as H2.
    { intros u v. rewrite projectsCompare_cases.
      destruct (projectHasDate u), (projectHasDate v); lia. }
    specialize (Hs H1 H2).
    pose proof (StronglySorted_app_1_elem_of _ _ _ _ _ Hs Hx Hin) as Hxy.
    simpl in Hxy. rewrite Hy in Hxy.
    destruct (projectHasDate x); [done|lia].
  - intros H61 H16 Haz Hza A B C D arr HA HB HC HCt HD HDt Harr.
    assert (projectHasDate A = true) as HAd by (unfold projectHasDate; by rewrite HA).
    assert (projectHasDate B = true) as HBd by (unfold projectHasDate; by rewrite HB).
    apply sort_four; [..|done]; rewrite projectsCompare_cases;
      rewrite ?HAd, ?HBd, ?HC, ?HD, ?HA, ?HB, ?HCt, ?HDt; simpl; lia.
Qed.

Lemma projectsCompare_policy_witness :
  sort (projectsCompare sampleLocaleCompare)
    [projectDated (js "a") (js "2024-01-01"); projectDated (js "b") (js "2024-06-01");
     projectUndated (js "c") (js "Zeta"); projectUndated (js "d") (js "Alfa")]
  = [projectDated (js "b") (js "2024-06-01"); projectDated (js "a") (js "2024-01-01");
     projectUndated (js "d") (js "Alfa"); projectUndated (js "c") (js "Zeta")].
Proof.
  apply (proj2 (proj2 (proj2 (proj2 (proj2 (projectsCompare_policy sampleLocaleCompare)))))).
  all: try reflexivity.
Defined.

(** *** News *)

(** C6 as worded fails: on a host that compares letters without regard to
    case, of two undated news items with the slugs [apple] and [Zoo] the
    comparator puts [apple] first, whereas by code units [Zoo] is before
    [apple]. *)
Lemma newsCompare_not_code_unit_order :
  let a := newsItem (js "apple") None in
  let b := newsItem (js "Zoo") None in
  newsCompare sampleLocaleCompare a b = -1 /\
  codeUnitCompare (News.slug a) (News.slug b) = 1.
Proof. split; reflexivity. Qed.

(** C6, amended: [newsCompare] orders a pair by the comparison of the two
    date strings that the host makes without a locale, reversed, only
    when both records have a date; in every other case (one or both dates
    absent) it is the comparison of the slugs that the host makes without
    a locale ([localeCompare] with one argument: the default locale, not
    [pl]), ascending. No rule places a dated item before an undated one:
    the dated one goes after it whenever its slug compares greater. *)
Theorem newsCompare_policy
    (localeCompare : option jsstring -> jsstring -> jsstring -> Z)
    (a b : News.t) :
  (forall da db, News.date a = Some da -> News.date b = Some db ->
                 da <> [] -> db <> [] ->
                 newsCompare localeCompare a b = localeCompare None db da) /\
  (newsHasDate a = false \/ newsHasDate b = false ->
   newsCompare localeCompare a b = localeCompare None (News.slug a) (News.slug b)) /\
  (newsHasDate a = true -> newsHasDate b = false ->
   0 < localeCompare None (News.slug a) (News.slug b) ->
   0 < newsCompare localeCompare a b).
Proof.
  unfold newsCompare, newsHasDate. split; [|split].
  - intros da db -> -> Hda Hdb. by destruct da, db.
  - intros [-> | ->]; [done|]. by rewrite andb_false_r.
  - intros -> ->. done.
Qed.

Lemma newsCompare_policy_witness :
  0 < newsCompare sampleLocaleCompare
        (newsItem (js "zebra") (Some (js "2024-06-01"))) (newsItem (js "apple") None).
Proof.
  apply (proj2 (proj2 (newsCompare_policy sampleLocaleCompare _ _))); reflexivity.
Defined.

(** *** Team *)

(** C5: the score of a member is found by lower-casing the role and
    scanning the table in its order ([president] 3, [leader] 2, [head] 1):
    it is the value of the first key that occurs in the role, and 0 when
    none does. [teamCompare] orders by descending score and, on equal
    scores, by the comparison of the names in the locale [pl]; in the
    sorted array the scores never increase. Members with the roles
    [Team Leader], [President], [Member] and [Head of Logistics], in
    whatever order they are found, are sorted to President, Team Leader,
    Head of Logistics, Member. *)
Theorem teamCompare_policy
    (localeCompare : option jsstring -> jsstring -> jsstring -> Z)
    (unicodeLowerCase : jsstring -> jsstring) :
  let score m := roleScore (toLowerCase unicodeLowerCase (TeamMember.role m)) in
  (forall role,
      roleScore role =
      if includes (js "president") role then 3
      else if includes (js "leader") role then 2
      else if includes (js "head") role then 1
      else 0) /\
  (forall key role, includes key role = true <-> exists h r, role = h ++ key ++ r) /\
  (forall a b, score a <> score b ->
               teamCompare localeCompare unicodeLowerCase a b = score b - score a) /\
  (forall a b, score a = score b ->
               teamCompare localeCompare unicodeLowerCase a b
               = localeCompare (Some (js "pl")) (TeamMember.name a) (TeamMember.name b)) /\
  (forall arr front back x y,
      sort (teamCompare localeCompare unicodeLowerCase) arr = front ++ back ->
      x ∈ front -> y ∈ back -> score y <= score x) /\
  (forall leader president plain head arr,
      TeamMember.role leader = js "Team Leader" ->
      TeamMember.role president = js "President" ->
      TeamMember.role plain = js "Member" ->
      TeamMember.role head = js "Head of Logistics" ->
      arr ≡ₚ [leader; president; plain; head] ->
      sort (teamCompare localeCompare unicodeLowerCase) arr
      = [president; leader; head; plain]).
Proof.
  intros score. split; [|split; [|split; [|split; [|split]]]].
  - intros role. unfold roleScore, rolePriority. simpl.
    by repeat destruct (includes _ role).
  - apply includes_spec.
  - apply teamCompare_differ.
  - apply teamCompare_tie.
  - intros arr front back x y Hsort Hx Hy.
    pose proof (sort_by_key (teamCompare localeCompare unicodeLowerCase)
                  (fun m => - score m) arr) as Hs.
    rewrite Hsort in Hs.
    assert (forall u v, teamCompare localeCompare unicodeLowerCase u v <= 0 ->
                        - score u <= - score v) as H1.
    { intros u v. destruct (decide (score u = score v)) as [E|E].
      - intros _. subst score. simpl in *. lia.
      - rewrite teamCompare_differ by exact E. subst score. simpl. lia. }
    assert (forall u v, 0 < teamCompare localeCompare unicodeLowerCase u v ->
                        - score v <= - score u) as H2.
    { intros u v. destruct (decide (score u = score v)) as [E|E].
      - intros _. subst score. simpl in *. lia.
      - rewrite teamCompare_differ by exact E. subst score. simpl. lia. }
    pose proof (StronglySorted_app_1_elem_of _ _ _ _ _ (Hs H1 H2) Hx Hy) as Hxy.
    simpl in Hxy. lia.
  - intros leader president plain head arr Hl Hp Hm Hh Harr.
    assert (score leader = 2) as Sl by (subst score; simpl; by rewrite Hl).
    assert (score president = 3) as Sp by (subst score; simpl; by rewrite Hp).
    assert (score plain = 0) as Sm by (subst score; simpl; by rewrite Hm).
    assert (score head = 1) as Sh by (subst score; simpl; by rewrite Hh).
    subst score. simpl in *.
    apply (sort_four _ leader president plain head); [..|done];
      rewrite teamCompare_differ; rewrite ?Sl, ?Sp, ?Sm, ?Sh; lia.
Qed.

Lemma teamCompare_policy_witness :
  sort (teamCompare sampleLocaleCompare sampleUnicodeLowerCase)
    [member (js "ola") (js "Team Leader"); member (js "jan") (js "President");
     member (js "ewa") (js "Member"); member (js "adam") (js "Head of Logistics")]
  = [member (js "jan") (js "President"); member (js "ola") (js "Team Leader");
     member (js "adam") (js "Head of Logistics"); member (js "ewa") (js "Member")].
Proof.
  apply (proj2 (proj2 (proj2 (proj2 (proj2
    (teamCompare_policy sampleLocaleCompare sampleUnicodeLowerCase))))));
    reflexivity.
Defined.

(** ** The collectors *)

Lemma readDirIfExists_listing (disk : fs.snapshot) (dir : fspath) :
  readDirIfExists disk dir = (Ok (listing disk dir), []).
Proof. unfold readDirIfExists, listing. by destruct (fs.readdir disk dir). Qed.

Lemma await_parseMetaTxt (txt : jsstring) :
  await (parseMetaTxt txt) = (Ok (parsed txt), []).
Proof.
  unfold await, parsed. by destruct (parseMetaTxt_total txt) as [meta ->].
Qed.

(** Each loop adds the records of the entries in order, prints their
    warnings in order, and does not throw. *)
Lemma projectsLoop_spec (disk : fs.snapshot) (items : list Dirent.t) (out : list Project.t) :
  projectsLoop disk items out
  = (Ok (out ++ omap (itemOf disk projectsBase (projectOf disk)) items),
     omap (warningOf disk projectsBase projectsWarning) items).
Proof.
  revert out. induction items as [|d items IH]; intros out.
  - simpl. by rewrite app_nil_r.
  - cbn [projectsLoop omap list_omap]. unfold itemOf at 1, warningOf at 1.
    destruct (Dirent.isDirectory d); simpl negb; cbv iota; [|apply IH].
    fold (metaPath projectsBase (Dirent.name d)).
    destruct (fs.readFile disk (metaPath projectsBase (Dirent.name d))) as [txt|e].
    + rewrite await_parseMetaTxt, readDirIfExists_listing.
      unfold mbind, io_bind. rewrite IH. simpl. by rewrite <- app_assoc.
    + unfold mbind, io_bind, console. rewrite IH. done.
Qed.

Lemma newsLoop_spec (disk : fs.snapshot) (items : list Dirent.t) (out : list News.t) :
  newsLoop disk items out
  = (Ok (out ++ omap (itemOf disk newsBase (newsOf disk)) items),
     omap (warningOf disk newsBase newsWarning) items).
Proof.
  revert out. induction items as [|d items IH]; intros out.
  - simpl. by rewrite app_nil_r.
  - cbn [newsLoop omap list_omap]. unfold itemOf at 1, warningOf at 1.
    destruct (Dirent.isDirectory d); simpl negb; cbv iota; [|apply IH].
    fold (metaPath newsBase (Dirent.name d)).
    destruct (fs.readFile disk (metaPath newsBase (Dirent.name d))) as [txt|e].
    + rewrite await_parseMetaTxt.
      unfold mbind, io_bind. rewrite IH. simpl. by rewrite <- app_assoc.
    + unfold mbind, io_bind, console. rewrite IH. done.
Qed.

Lemma teamLoop_spec (disk : fs.snapshot) (items : list Dirent.t) (out : list TeamMember.t) :
  teamLoop disk items out
  = (Ok (out ++ omap (itemOf disk teamBase (memberOf disk)) items),
     omap (warningOf disk teamBase teamWarning) items).
Proof.
  revert out. induction items as [|d items IH]; intros out.
  - simpl. by rewrite app_nil_r.
  - cbn [teamLoop omap list_omap]. unfold itemOf at 1, warningOf at 1.
    destruct (Dirent.isDirectory d); simpl negb; cbv iota; [|apply IH].
    fold (metaPath teamBase (Dirent.name d)).
    destruct (fs.readFile disk (metaPath teamBase (Dirent.name d))) as [txt|e].
    + rewrite await_parseMetaTxt.
      unfold mbind, io_bind. rewrite IH. simpl. by rewrite <- app_assoc.
    + unfold mbind, io_bind, console. rewrite IH. done.
Qed.

Lemma collectProjects_spec localeCompare (disk : fs.snapshot) :
  collectProjects localeCompare disk
  = (Ok (sort (projectsCompare localeCompare)
           (omap (itemOf disk projectsBase (projectOf disk)) (listing disk projectsBase))),
     omap (warningOf disk projectsBase projectsWarning) (listing disk projectsBase)).
Proof.
  unfold collectProjects. rewrite readDirIfExists_listing.
  unfold mbind, io_bind. rewrite projectsLoop_spec. simpl. by rewrite app_nil_r.
Qed.

Lemma collectNews_spec localeCompare (disk : fs.snapshot) :
  collectNews localeCompare disk
  = (Ok (sort (newsCompare localeCompare)
           (omap (itemOf disk newsBase (newsOf disk)) (listing disk newsBase))),
     omap (warningOf disk newsBase newsWarning) (listing disk newsBase)).
Proof.
  unfold collectNews. rewrite readDirIfExists_listing.
  unfold mbind, io_bind. rewrite newsLoop_spec. simpl. by rewrite app_nil_r.
Qed.

Lemma collectTeam_spec localeCompare unicodeLowerCase (disk : fs.snapshot) :
  collectTeam localeCompare unicodeLowerCase disk
  = (Ok (sort (teamCompare localeCompare unicodeLowerCase)
           (omap (itemOf disk teamBase (memberOf disk)) (listing disk teamBase))),
     omap (warningOf disk teamBase teamWarning) (listing disk teamBase)).
Proof.
  unfold collectTeam. rewrite readDirIfExists_listing.
  unfold mbind, io_bind. rewrite teamLoop_spec. simpl. by rewrite app_nil_r.
Qed.

Lemma isDirectory_type (dirent : Dirent.t) :
  Dirent.isDirectory dirent = true <-> Dirent.type dirent = Directory.
Proof. unfold Dirent.isDirectory. by destruct (Dirent.type dirent). Qed.

Lemma listing_withListing (disk : fs.snapshot) (dir : fspath) (entries : list Dirent.t) :
  listing (withListing disk dir entries) dir = entries.
Proof. unfold listing. simpl. by rewrite bool_decide_eq_true_2. Qed.

Lemma listing_withListing_ne (disk : fs.snapshot) (dir dir' : fspath)
    (entries : list Dirent.t) :
  dir' <> dir -> listing (withListing disk dir entries) dir' = listing disk dir'.
Proof. intros H. unfold listing. simpl. by rewrite bool_decide_eq_false_2. Qed.

Lemma firstAccessible_withListing (disk : fs.snapshot) dir' entries dir url candidates :
  firstAccessible (withListing disk dir' entries) dir url candidates
  = firstAccessible disk dir url candidates.
Proof. induction candidates as [|c cs IH]; simpl; [done|]. by rewrite IH. Qed.

(** A collector that sorts the records of the entries of its listing. *)
Section Collector.

Context {R : Type}.
Variable collect : fs.snapshot -> io (list R).
Variable base : fspath.
Variable build : fs.snapshot -> jsstring -> jsstring -> R.
Variable message : jsstring -> jsstring.
Variable compare : R -> R -> Z.
Variable slugOf : R -> jsstring.

Hypothesis collect_spec : forall disk,
  collect disk
  = (Ok (sort compare (omap (itemOf disk base (build disk)) (listing disk base))),
     omap (warningOf disk base message) (listing disk base)).
Hypothesis build_slug : forall disk slug txt, slugOf (build disk slug txt) = slug.
Hypothesis build_withListing : forall disk entries slug txt,
  build (withListing disk base entries) slug txt = build disk slug txt.

Lemma itemOf_withListing disk entries dirent :
  itemOf (withListing disk base entries) base (build (withListing disk base entries)) dirent
  = itemOf disk base (build disk) dirent.
Proof.
  unfold itemOf. simpl. destruct (Dirent.isDirectory dirent); [|done].
  destruct (fs.readFile disk _); [|done]. by rewrite build_withListing.
Qed.

Lemma omap_itemOf_withListing disk entries (items : list Dirent.t) :
  omap (itemOf (withListing disk base entries) base
          (build (withListing disk base entries))) items
  = omap (itemOf disk base (build disk)) items.
Proof.
  induction items as [|d items IH]; [done|].
  cbn [omap list_omap]. by rewrite itemOf_withListing, IH.
Qed.

Lemma elem_of_collect disk r :
  r ∈ sort compare (omap (itemOf disk base (build disk)) (listing disk base)) <->
  exists dirent txt,
    dirent ∈ listing disk base /\ Dirent.isDirectory dirent = true /\
    fs.readFile disk (metaPath base (Dirent.name dirent)) = Ok txt /\
    r = build disk (Dirent.name dirent) txt.
Proof.
  rewrite elem_of_sort, list_elem_of_omap. unfold itemOf. split.
  - intros (d & Hd & H). destruct (Dirent.isDirectory d) eqn:Edir; [|done].
    destruct (fs.readFile disk _) as [txt|] eqn:Eread; [|done].
    injection H as <-. by exists d, txt.
  - intros (d & txt & Hd & Edir & Eread & ->). exists d.
    by rewrite Edir, Eread.
Qed.

Lemma collector_listing_fails disk e :
  fs.readdir disk base = Throw e -> collect disk = (Ok [], []).
Proof. intros H. rewrite collect_spec. unfold listing. by rewrite H. Qed.

Lemma collector_never_throws disk : exists out, (collect disk).1 = Ok out.
Proof. rewrite collect_spec. by eexists. Qed.

Lemma collector_skipsUnreadableItems : skipsUnreadableItems collect base build slugOf.
Proof.
  intros disk before d after e Hdir Hd Hread.
  assert (listing disk base = before ++ d :: after) as Hl
    by (unfold listing; by rewrite Hdir).
  eexists. split; [by rewrite collect_spec|]. split; [|split].
  - intros r (d' & txt & _ & _ & Hread' & ->)%elem_of_collect.
    rewrite build_slug. intros Heq. rewrite Heq in Hread'. congruence.
  - intros sibling txt Hin Hsd Hsr. apply elem_of_collect.
    exists sibling, txt. rewrite Hl. split; [|done].
    rewrite elem_of_app in Hin. rewrite elem_of_app, elem_of_cons. tauto.
  - rewrite collect_spec, listing_withListing, omap_itemOf_withListing, Hl.
    simpl. f_equal. f_equal. rewrite !omap_app. f_equal.
    cbn [omap list_omap]. unfold itemOf at 2. by rewrite Hd, Hread.
Qed.

Lemma collector_skipsNonDirectories : skipsNonDirectories collect base slugOf.
Proof.
  split.
  - intros disk out r Hout Hr. rewrite collect_spec in Hout. injection Hout as <-.
    apply elem_of_collect in Hr as (d & txt & Hd & Hdir & _ & ->).
    exists d. rewrite build_slug. by apply isDirectory_type in Hdir.
  - intros disk before d after Hdir Hd.
    assert (listing disk base = before ++ d :: after) as Hl
      by (unfold listing; by rewrite Hdir).
    assert (Dirent.isDirectory d = false) as Hf.
    { destruct (Dirent.isDirectory d) eqn:E; [|done]. by apply isDirectory_type in E. }
    rewrite !collect_spec, listing_withListing, omap_itemOf_withListing, Hl.
    rewrite !omap_app. cbn [omap list_omap].
    assert (itemOf disk base (build disk) d = None) as ->
      by (unfold itemOf; by rewrite Hf).
    assert (warningOf disk base message d = None) as ->
      by (unfold warningOf; by rewrite Hf).
    reflexivity.
Qed.

End Collector.

Lemma projectOf_withListing disk entries slug txt :
  projectOf (withListing disk projectsBase entries) slug txt = projectOf disk slug txt.
Proof.
  unfold projectOf. rewrite firstAccessible_withListing.
  rewrite listing_withListing_ne; [done|].
  intros H. by apply (f_equal length) in H.
Qed.

Lemma newsOf_withListing disk entries slug txt :
  newsOf (withListing disk newsBase entries) slug txt = newsOf disk slug txt.
Proof. unfold newsOf. by rewrite firstAccessible_withListing. Qed.

Lemma memberOf_withListing disk entries slug txt :
  memberOf (withListing disk teamBase entries) slug txt = memberOf disk slug txt.
Proof. unfold memberOf. by rewrite firstAccessible_withListing. Qed.

Lemma collectStats_spec (disk : fs.snapshot) : collectStats disk = (Ok (statsOf disk), []).
Proof. unfold collectStats, statsOf. by destruct (fs.readFile disk statsFile). Qed.

(** When the output directory can be made and the artifacts written, the
    run ends with status 0: it has written the four results of the
    collectors, after their warnings. *)
Lemma run_completes localeCompare unicodeLowerCase (disk : fs.snapshot) :
  fs.mkdir disk PUBLIC_DATA = Ok tt ->
  (forall file data, fs.writeFile disk file data = Ok tt) ->
  exists projects news team warnings,
    (collectProjects localeCompare disk).1 = Ok projects /\
    (collectNews localeCompare disk).1 = Ok news /\
    (collectTeam localeCompare unicodeLowerCase disk).1 = Ok team /\
    run localeCompare unicodeLowerCase disk
    = (0, warnings ++
          [written (PUBLIC_DATA ++ [js "projects.json"]) (ProjectsJson projects);
           written (PUBLIC_DATA ++ [js "news.json"]) (NewsJson news);
           written (PUBLIC_DATA ++ [js "team.json"]) (TeamJson team);
           written (PUBLIC_DATA ++ [js "stats.json"]) (StatsJson (statsOf disk));
           log (js "Generated /public/data/*.json")]).
Proof.
  intros Hmkdir Hwrite. unfold run, main, ensureDir, writeJson, await, console.
  rewrite Hmkdir, collectProjects_spec, collectNews_spec, collectTeam_spec,
    collectStats_spec.
  unfold mbind, io_bind. rewrite !Hwrite. simpl.
  do 3 eexists.
  exists (omap (warningOf disk projectsBase projectsWarning) (listing disk projectsBase)
          ++ omap (warningOf disk newsBase newsWarning) (listing disk newsBase)
          ++ omap (warningOf disk teamBase teamWarning) (listing disk teamBase)).
  split; [reflexivity|]. split; [reflexivity|]. split; [reflexivity|].
  by rewrite <- !app_assoc.
Qed.

(** *** C1 *)

(** C1 as worded fails: on a disk that refuses every read of the content
    tree with a permission error, the listing of the projects root fails
    with [EACCES], [collectProjects] returns the empty array without a
    warning, and the run ends with status 0, not with a fatal error. *)
Lemma refused_listing_is_not_fatal :
  fs.readdir deniedDisk projectsBase = Throw (SystemError EACCES) /\
  collectProjects sampleLocaleCompare deniedDisk = (Ok [], []) /\
  (run sampleLocaleCompare sampleUnicodeLowerCase deniedDisk).1 = 0.
Proof. split; [reflexivity|]. split; vm_compute; reflexivity. Qed.

(** C1, amended: for every collection root (projects, news, team) on
    which the directory listing fails, for whatever reason, the collector
    returns the empty array and prints nothing; the run is not aborted:
    when the output directory can be made and the artifacts written, it
    ends with status 0 and has written, for each root whose listing
    failed, the empty array. *)
Theorem failed_listing_is_contained
    (localeCompare : option jsstring -> jsstring -> jsstring -> Z)
    (unicodeLowerCase : jsstring -> jsstring) (disk : fs.snapshot) :
  (forall e, fs.readdir disk projectsBase = Throw e ->
             collectProjects localeCompare disk = (Ok [], [])) /\
  (forall e, fs.readdir disk newsBase = Throw e ->
             collectNews localeCompare disk = (Ok [], [])) /\
  (forall e, fs.readdir disk teamBase = Throw e ->
             collectTeam localeCompare unicodeLowerCase disk = (Ok [], [])) /\
  (fs.mkdir disk PUBLIC_DATA = Ok tt ->
   (forall file data, fs.writeFile disk file data = Ok tt) ->
   exists events,
     run localeCompare unicodeLowerCase disk = (0, events) /\
     (forall e, fs.readdir disk projectsBase = Throw e ->
        written (PUBLIC_DATA ++ [js "projects.json"]) (ProjectsJson []) ∈ events) /\
     (forall e, fs.readdir disk newsBase = Throw e ->
        written (PUBLIC_DATA ++ [js "news.json"]) (NewsJson []) ∈ events) /\
     (forall e, fs.readdir disk teamBase = Throw e ->
        written (PUBLIC_DATA ++ [js "team.json"]) (TeamJson []) ∈ events)).
Proof.
  assert (forall e, fs.readdir disk projectsBase = Throw e ->
                    collectProjects localeCompare disk = (Ok [], [])) as Hp.
  { intros e. eapply collector_listing_fails, collectProjects_spec. }
  assert (forall e, fs.readdir disk newsBase = Throw e ->
                    collectNews localeCompare disk = (Ok [], [])) as Hn.
  { intros e. eapply collector_listing_fails, collectNews_spec. }
  assert (forall e, fs.readdir disk teamBase = Throw e ->
                    collectTeam localeCompare unicodeLowerCase disk = (Ok [], [])) as Ht.
  { intros e. eapply collector_listing_fails, collectTeam_spec. }
  split; [done|]. split; [done|]. split; [done|].
  intros Hmkdir Hwrite.
  destruct (run_completes localeCompare unicodeLowerCase disk Hmkdir Hwrite)
    as (projects & news & team & warnings & Ep & En & Et & Hrun).
  eexists. split; [exact Hrun|].
  split; [|split]; intros e He; apply elem_of_app; right.
  - rewrite (Hp e He) in Ep. injection Ep as <-. apply elem_of_cons. by left.
  - rewrite (Hn e He) in En. injection En as <-.
    do 1 (apply elem_of_cons; right). apply elem_of_cons. by left.
  - rewrite (Ht e He) in Et. injection Et as <-.
    do 2 (apply elem_of_cons; right). apply elem_of_cons. by left.
Qed.

Lemma failed_listing_is_contained_witness :
  collectProjects sampleLocaleCompare deniedDisk = (Ok [], []).
Proof.
  apply (proj1 (failed_listing_is_contained sampleLocaleCompare
                  sampleUnicodeLowerCase deniedDisk) (SystemError EACCES)).
  reflexivity.
Defined.

(** *** C7 *)

Lemma firstAccessible_None disk dir url candidates :
  firstAccessible disk dir url candidates = None <->
  forall c, c ∈ candidates -> exists e, fs.access disk (dir ++ [c]) = Throw e.
Proof.
  induction candidates as [|c cs IH]; simpl.
  - split; [|done]. by intros _ c Hc%elem_of_nil.
  - destruct (fs.access disk (dir ++ [c])) as [u|e] eqn:E.
    + split; [done|]. intros H. destruct (H c) as [e He]; [by left|congruence].
    + rewrite IH. split.
      * intros H c' [->|Hc']%elem_of_cons; [by exists e|by apply H].
      * intros H c' Hc'. apply H. by right.
Qed.

Lemma firstAccessible_Some disk dir url candidates p :
  firstAccessible disk dir url candidates = Some p <->
  exists before c after,
    candidates = before ++ c :: after /\
    fs.access disk (dir ++ [c]) = Ok tt /\
    (forall c', c' ∈ before -> exists e, fs.access disk (dir ++ [c']) = Throw e) /\
    p = url c.
Proof.
  induction candidates as [|c cs IH]; simpl.
  - split; [done|]. intros (before & c & after & H & _). by destruct before.
  - destruct (fs.access disk (dir ++ [c])) as [[]|e] eqn:E.
    + split.
      * intros [= <-]. exists [], c, cs. repeat split; [done|].
        by intros c' Hc'%elem_of_nil.
      * intros ([|b before] & c' & after & Hc & Hok & Hbefore & ->).
        -- by injection Hc as -> _.
        -- injection Hc as -> _. destruct (Hbefore b) as [e He]; [by left|congruence].
    + rewrite IH. split.
      * intros (before & c' & after & -> & Hok & Hbefore & ->).
        exists (c :: before), c', after. repeat split; [done|].
        intros b [->|Hb]%elem_of_cons; [by exists e|by apply Hbefore].
      * intros ([|b before] & c' & after & Hc & Hok & Hbefore & ->).
        -- injection Hc as -> _. congruence.
        -- injection Hc as -> ->. exists before, c', after. repeat split; [done|].
           intros b' Hb'. apply Hbefore. by right.
Qed.

(** C7: for every directory and every ordered list of candidates the
    asset lookup gives the public address of the first candidate, in the
    order of the list, that [fs.access] accepts, and none when it accepts
    no candidate; with the candidates [cover.png], [cover.jpg] and only
    [cover.jpg] present it gives the address of [cover.jpg]. The cover of
    a project and of a news item and the photo of a team member are found
    so, over the four extensions in the order png, jpg, jpeg, webp. *)
Theorem firstAccessible_first (disk : fs.snapshot) (dir : fspath)
    (url : jsstring -> jsstring) :
  (forall candidates,
      firstAccessible disk dir url candidates = None <->
      forall c, c ∈ candidates -> exists e, fs.access disk (dir ++ [c]) = Throw e) /\
  (forall candidates p,
      firstAccessible disk dir url candidates = Some p <->
      exists before c after,
        candidates = before ++ c :: after /\
        fs.access disk (dir ++ [c]) = Ok tt /\
        (forall c', c' ∈ before -> exists e, fs.access disk (dir ++ [c']) = Throw e) /\
        p = url c) /\
  (forall e,
      fs.access disk (dir ++ [js "cover.png"]) = Throw e ->
      fs.access disk (dir ++ [js "cover.jpg"]) = Ok tt ->
      firstAccessible disk dir url [js "cover.png"; js "cover.jpg"]
      = Some (url (js "cover.jpg"))) /\
  (forall localeCompare unicodeLowerCase,
      (forall out r, (collectProjects localeCompare disk).1 = Ok out -> r ∈ out ->
         Project.cover r
         = firstAccessible disk (projectsBase ++ [Project.slug r])
             (fun c => js "/content/projects/" ++ Project.slug r ++ js "/" ++ c)
             [js "cover.png"; js "cover.jpg"; js "cover.jpeg"; js "cover.webp"]) /\
      (forall out r, (collectNews localeCompare disk).1 = Ok out -> r ∈ out ->
         News.cover r
         = firstAccessible disk (newsBase ++ [News.slug r])
             (fun c => js "/content/news/" ++ News.slug r ++ js "/" ++ c)
             [js "cover.png"; js "cover.jpg"; js "cover.jpeg"; js "cover.webp"]) /\
      (forall out r, (collectTeam localeCompare unicodeLowerCase disk).1 = Ok out ->
         r ∈ out ->
         TeamMember.photo r
         = firstAccessible disk (teamBase ++ [TeamMember.slug r])
             (fun c => js "/content/team/" ++ TeamMember.slug r ++ js "/" ++ c)
             [js "photo.png"; js "photo.jpg"; js "photo.jpeg"; js "photo.webp"])).
Proof.
  split; [apply firstAccessible_None|]. split; [apply firstAccessible_Some|].
  split.
  - intros e Hpng Hjpg. simpl. by rewrite Hpng, Hjpg.
  - intros localeCompare unicodeLowerCase. split; [|split]; intros out r Hout Hr.
    + rewrite collectProjects_spec in Hout. injection Hout as <-.
      apply elem_of_collect in Hr as (d & txt & _ & _ & _ & ->). done.
    + rewrite collectNews_spec in Hout. injection Hout as <-.
      apply elem_of_collect in Hr as (d & txt & _ & _ & _ & ->). done.
    + rewrite collectTeam_spec in Hout. injection Hout as <-.
      apply elem_of_collect in Hr as (d & txt & _ & _ & _ & ->). done.
Qed.

Lemma firstAccessible_first_witness :
  firstAccessible contentDisk (projectsBase ++ [js "alpha"])
    (fun c => js "/content/projects/alpha/" ++ c) [js "cover.png"; js "cover.jpg"]
  = Some (js "/content/projects/alpha/cover.jpg").
Proof.
  apply (proj1 (proj2 (proj2 (firstAccessible_first contentDisk
           (projectsBase ++ [js "alpha"]) (fun c => js "/content/projects/alpha/" ++ c))))
         (SystemError ENOENT)); reflexivity.
Defined.

(** *** C8 *)

(** C8: in every collection, a subdirectory whose [meta.txt] cannot be
    read, for whatever reason, gives no record; the collector does not
    throw, the records of the sibling subdirectories are in the array,
    and the array is the one of a disk on which the subdirectory is not
    listed at all. *)
Theorem unreadable_item_is_skipped
    (localeCompare : option jsstring -> jsstring -> jsstring -> Z)
    (unicodeLowerCase : jsstring -> jsstring) :
  skipsUnreadableItems (collectProjects localeCompare) projectsBase projectOf
    Project.slug /\
  skipsUnreadableItems (collectNews localeCompare) newsBase newsOf News.slug /\
  skipsUnreadableItems (collectTeam localeCompare unicodeLowerCase) teamBase memberOf
    TeamMember.slug.
Proof.
  split; [|split].
  - eapply collector_skipsUnreadableItems;
      [apply collectProjects_spec|done|apply projectOf_withListing].
  - eapply collector_skipsUnreadableItems;
      [apply collectNews_spec|done|apply newsOf_withListing].
  - eapply collector_skipsUnreadableItems;
      [apply collectTeam_spec|done|apply memberOf_withListing].
Qed.

Lemma unreadable_item_is_skipped_witness :
  exists out,
    (collectProjects sampleLocaleCompare contentDisk).1 = Ok out /\
    (forall r, r ∈ out -> Project.slug r <> js "broken") /\
    (forall sibling txt,
        sibling ∈ [directory (js "alpha")]
                  ++ [{| Dirent.name := js "linked"; Dirent.type := SymbolicLink |};
                      directory (js "beta")] ->
        Dirent.isDirectory sibling = true ->
        fs.readFile contentDisk (metaPath projectsBase (Dirent.name sibling)) = Ok txt ->
        projectOf contentDisk (Dirent.name sibling) txt ∈ out) /\
    (collectProjects sampleLocaleCompare
       (withListing contentDisk projectsBase
          ([directory (js "alpha")]
           ++ [{| Dirent.name := js "linked"; Dirent.type := SymbolicLink |};
               directory (js "beta")]))).1 = Ok out.
Proof.
  apply (proj1 (unreadable_item_is_skipped sampleLocaleCompare sampleUnicodeLowerCase)
           contentDisk [directory (js "alpha")] (directory (js "broken"))
           [{| Dirent.name := js "linked"; Dirent.type := SymbolicLink |};
            directory (js "beta")]
           (SystemError ENOENT)); reflexivity.
Defined.

(** *** C10 *)

(** C10: in every collection, each record of the array is that of an
    entry of the root that is a directory and bears the slug as its name;
    an entry that is not a directory (a regular file, a symbolic link,
    and so on) is passed over without a record, a warning or any other
    effect, whatever can be read under its name. *)
Theorem non_directory_is_skipped
    (localeCompare : option jsstring -> jsstring -> jsstring -> Z)
    (unicodeLowerCase : jsstring -> jsstring) :
  skipsNonDirectories (collectProjects localeCompare) projectsBase Project.slug /\
  skipsNonDirectories (collectNews localeCompare) newsBase News.slug /\
  skipsNonDirectories (collectTeam localeCompare unicodeLowerCase) teamBase
    TeamMember.slug.
Proof.
  split; [|split].
  - eapply collector_skipsNonDirectories;
      [apply collectProjects_spec|done|apply projectOf_withListing].
  - eapply collector_skipsNonDirectories;
      [apply collectNews_spec|done|apply newsOf_withListing].
  - eapply collector_skipsNonDirectories;
      [apply collectTeam_spec|done|apply memberOf_withListing].
Qed.

Lemma non_directory_is_skipped_witness :
  fs.readFile contentDisk (metaPath projectsBase (js "linked")) = Ok (js "title: Linked") /\
  collectProjects sampleLocaleCompare contentDisk
  = collectProjects sampleLocaleCompare
      (withListing contentDisk projectsBase
         ([directory (js "alpha"); directory (js "broken")] ++ [directory (js "beta")])).
Proof.
  split; [reflexivity|].
  apply (proj2 (proj1 (non_directory_is_skipped sampleLocaleCompare sampleUnicodeLowerCase))
           contentDisk [directory (js "alpha"); directory (js "broken")]
           {| Dirent.name := js "linked"; Dirent.type := SymbolicLink |}
           [directory (js "beta")]); [reflexivity|discriminate].
Defined.

(** *** C9 *)

Lemma reverse_eq_rev {A} (l : list A) : reverse l = rev l.
Proof. unfold reverse. by rewrite rev_alt. Qed.

Lemma trimStart_split (s : jsstring) :
  exists p, s = p ++ trimStart s /\ Forall (fun c => isWhiteSpace c = true) p.
Proof.
  induction s as [|c s (p & Hs & Hp)]; simpl.
  - by exists [].
  - destruct (isWhiteSpace c) eqn:E.
    + exists (c :: p). split; [by rewrite Hs at 1|by constructor].
    + by exists [].
Qed.

Lemma trimStart_nil (s : jsstring) :
  trimStart s = [] -> Forall (fun c => isWhiteSpace c = true) s.
Proof.
  intros H. destruct (trimStart_split s) as (p & Hs & Hp).
  rewrite H, app_nil_r in Hs. by subst.
Qed.

(** A string that trims to nothing is made of white space. *)
Lemma trim_nil (s : jsstring) :
  trim s = [] -> Forall (fun c => isWhiteSpace c = true) s.
Proof.
  unfold trim, trimEnd. intros H.
  apply (f_equal (@rev N)) in H. rewrite rev_involutive in H. simpl in H.
  apply trimStart_nil in H. rewrite <- reverse_eq_rev, Forall_reverse in H.
  destruct (trimStart_split s) as (p & Hs & Hp). rewrite Hs.
  by apply Forall_app.
Qed.

(** A line with a colon is not blank. *)
Lemma colon_not_blank (line : jsstring) (idx : nat) :
  indexOf COLON line = Some idx -> trim line <> [].
Proof.
  intros Hidx Hblank. apply trim_nil in Hblank.
  apply indexOf_decompose in Hidx. rewrite Hidx in Hblank.
  apply Forall_app in Hblank as [_ Hblank].
  apply Forall_app in Hblank as [Hblank _].
  by apply Forall_cons in Hblank as [Hblank _].
Qed.

Lemma statsLine_keyValue (map : gmap jsstring StatValue) (line : jsstring) :
  statsLine map line =
  match keyValue line with
  | Some kv => setPair map (kv.1, statValue kv.2)
  | None => map
  end.
Proof.
  unfold statsLine, keyValue. destruct (trim line); [done|].
  by destruct (indexOf COLON line).
Qed.

Lemma foldl_statsLine (lines : list jsstring) (map : gmap jsstring StatValue) :
  foldl statsLine map lines
  = foldl setPair map ((fun kv => (kv.1, statValue kv.2)) <$> omap keyValue lines).
Proof.
  revert map. induction lines as [|line lines IH]; intros map; [done|].
  cbn [foldl omap list_omap]. rewrite statsLine_keyValue.
  destruct (keyValue line); simpl; apply IH.
Qed.

Lemma lastValue_fmap {V W} (f : V -> W) (k : jsstring) (pairs : list (jsstring * V)) :
  lastValue k ((fun kv => (kv.1, f kv.2)) <$> pairs) = f <$> lastValue k pairs.
Proof.
  unfold lastValue. rewrite <- !reverse_eq_rev, <- fmap_reverse.
  induction (reverse pairs) as [|[k' v] l IH]; [done|].
  simpl. destruct (bool_decide (k' = k)); [done|apply IH].
Qed.

(** C9 as worded fails: the stats document [users:] has a line with a
    colon whose trimmed value is the empty string; no decimal number is
    read from it, and yet the parser stores a number, 0, not the string. *)
Lemma collectStats_empty_value_is_zero :
  decimalLiteral (trim (js "")) = None /\
  collectStats (statsDisk (js "users:"))
  = (Ok {[ js "users" := NumberValue (Finite 0) ]}, []).
Proof. split; reflexivity. Qed.

(** C9, amended: for every line of the stats document with a colon,
    whose key is not [__proto__], the parser stores under the trimmed key
    the trimmed value as a number exactly when [Number] of it is finite
    (which it is for a decimal literal within range, and also for the
    empty string, taken as 0, and for a [0x], [0o] or [0b] integer), and
    otherwise stores the trimmed string; a key holds the value of its
    last line. The document [users: 42], [active: true] yields
    [{ users: 42, active: "true" }]. A stats document that cannot be read
    yields the empty mapping, without error. *)
Theorem collectStats_policy (disk : fs.snapshot) :
  (forall map line idx,
      indexOf COLON line = Some idx ->
      let key := trim (slice_to idx line) in
      let valueRaw := trim (slice_from (idx + 1) line) in
      key <> js "__proto__" ->
      (isFinite (Number valueRaw) = true /\
       statsLine map line = <[key := NumberValue (Number valueRaw)]> map) \/
      (isFinite (Number valueRaw) = false /\
       statsLine map line = <[key := StringValue valueRaw]> map)) /\
  (forall txt,
      fs.readFile disk statsFile = Ok txt ->
      exists map,
        collectStats disk = (Ok map, []) /\
        forall key, key <> js "__proto__" ->
                    map !! key = statValue <$> lastValue key (headerPairs txt)) /\
  (fs.readFile disk statsFile = Ok (js "users: 42" ++ [LF] ++ js "active: true") ->
   collectStats disk
   = (Ok {[ js "users" := NumberValue (Finite 42);
            js "active" := StringValue (js "true") ]}, [])) /\
  (Number (js "") = Finite 0 /\ Number (js "0x10") = Finite 16 /\
   Number (js "true") = NaN /\ Number (js "Infinity") = Infinity false) /\
  (forall e, fs.readFile disk statsFile = Throw e -> collectStats disk = (Ok ∅, [])).
Proof.
  split; [|split; [|split; [|split]]].
  - intros map line idx Hidx key valueRaw Hkey.
    pose proof (colon_not_blank _ _ Hidx) as Hblank.
    unfold statsLine. destruct (trim line) eqn:E; [done|]. rewrite Hidx.
    fold key valueRaw. unfold setProperty.
    rewrite bool_decide_eq_false_2 by exact Hkey.
    destruct (isFinite (Number valueRaw)); [by left|by right].
  - intros txt Htxt. eexists. split.
    + unfold collectStats. by rewrite Htxt.
    + intros key Hkey. rewrite foldl_statsLine, lookup_foldl_setPair by exact Hkey.
      rewrite lastValue_fmap, lookup_empty. fold (headerPairs txt).
      by destruct (lastValue key (headerPairs txt)).
  - intros Htxt. unfold collectStats. rewrite Htxt. reflexivity.
  - repeat split.
  - intros e He. unfold collectStats. by rewrite He.
Qed.

Lemma collectStats_policy_witness :
  collectStats (statsDisk (js "users: 42" ++ [LF] ++ js "active: true"))
  = (Ok {[ js "users" := NumberValue (Finite 42);
           js "active" := StringValue (js "true") ]}, []).
Proof.
  apply (proj1 (proj2 (proj2 (collectStats_policy
           (statsDisk (js "users: 42" ++ [LF] ++ js "active: true")))))).
  reflexivity.
Defined.

(** * Further properties of the script *)

(** ** trim *)

Lemma trimStart_head (s r : jsstring) (c : N) :
  trimStart s = c :: r -> isWhiteSpace c = false.
Proof.
  induction s as [|d s IH]; simpl; [done|].
  destruct (isWhiteSpace d) eqn:E; [done|]. by intros [= <- _].
Qed.

Lemma trimStart_fixed (s : jsstring) :
  match s with [] => True | c :: _ => isWhiteSpace c = false end ->
  trimStart s = s.
Proof. destruct s as [|c s]; simpl; [done|]. by intros ->. Qed.

Lemma trimStart_idemp (s : jsstring) : trimStart (trimStart s) = trimStart s.
Proof.
  apply trimStart_fixed. destruct (trimStart s) eqn:E; [done|].
  by apply trimStart_head in E.
Qed.

Lemma trimStart_snoc (l : jsstring) (c : N) :
  isWhiteSpace c = false -> trimStart (l ++ [c]) = trimStart l ++ [c].
Proof.
  intros Hc. induction l as [|d l IH]; simpl; [by rewrite Hc|].
  by destruct (isWhiteSpace d).
Qed.

Lemma trimEnd_cons (c : N) (t : jsstring) :
  isWhiteSpace c = false -> trimEnd (c :: t) = c :: trimEnd t.
Proof.
  intros Hc. unfold trimEnd. simpl. rewrite trimStart_snoc by done.
  by rewrite rev_app_distr.
Qed.

(** Trimming twice is trimming once. *)
Lemma trim_idemp (s : jsstring) : trim (trim s) = trim s.
Proof.
  unfold trim. destruct (trimStart s) as [|c t] eqn:E; [done|].
  pose proof (trimStart_head _ _ _ E) as Hc.
  rewrite trimEnd_cons by done. simpl. rewrite Hc.
  rewrite <- trimEnd_cons by done. unfold trimEnd at 1.
  unfold trimEnd at 1. by rewrite rev_involutive, trimStart_idemp.
Qed.

Lemma elem_of_trimStart (s : jsstring) (c : N) : c ∈ trimStart s -> c ∈ s.
Proof.
  destruct (trimStart_split s) as (p & Hs & _). intros H. rewrite Hs.
  apply elem_of_app. by right.
Qed.

(** Trimming adds no code unit. *)
Lemma elem_of_trim (s : jsstring) (c : N) : c ∈ trim s -> c ∈ s.
Proof.
  unfold trim, trimEnd. rewrite <- !reverse_eq_rev, elem_of_reverse.
  intros H%elem_of_trimStart. rewrite elem_of_reverse in H.
  by apply elem_of_trimStart.
Qed.

(** ** parseMetaTxt on every document *)

Lemma parseMetaTxt_parts (txt : jsstring) :
  parseMetaTxt txt = Ok (<[DESCRIPTION := bodyOf txt]> (parseHead (headerOf txt))).
Proof.
  unfold headerOf, bodyOf. destruct (indexOf DELIMITER txt) as [i|] eqn:E.
  - by apply parseMetaTxt_delimited.
  - by apply parseMetaTxt_undelimited.
Qed.

Lemma parsed_parts (txt : jsstring) :
  parsed txt = <[DESCRIPTION := bodyOf txt]> (parseHead (headerOf txt)).
Proof. unfold parsed. by rewrite parseMetaTxt_parts. Qed.

Lemma parsed_description (txt : jsstring) :
  parsed txt !! js "description" = Some (bodyOf txt).
Proof. rewrite parsed_parts. apply lookup_insert_eq. Qed.

Lemma parsed_lookup (txt key : jsstring) :
  key <> DESCRIPTION -> key <> PROTO ->
  parsed txt !! key = lastValue key (headerPairs (headerOf txt)).
Proof.
  intros Hd Hp. rewrite parsed_parts, lookup_insert_ne by done.
  rewrite parseHead_pairs, lookup_foldl_setPair by done.
  rewrite lookup_empty. by destruct (lastValue key _).
Qed.

(** X1: for every text [parseMetaTxt] returns the mapping whose
    [description] is the trimmed text after the first delimiter (empty
    without a delimiter), a header line with the key [description]
    notwithstanding, and whose other keys are the keys of the
    [key: value] lines before the first delimiter, [__proto__] excepted,
    each with the value of its last line. *)
Theorem parseMetaTxt_fields (txt : jsstring) :
  exists meta,
    parseMetaTxt txt = Ok meta /\
    meta !! js "description" = Some (bodyOf txt) /\
    dom meta = {[js "description"]} ∪
               (list_to_set (headerPairs (headerOf txt)).*1
                ∖ ({[js "__proto__"]} : gset jsstring)) /\
    forall key, key <> js "description" -> key <> js "__proto__" ->
                meta !! key = lastValue key (headerPairs (headerOf txt)).
Proof.
  eexists. split; [apply parseMetaTxt_parts|]. split; [apply lookup_insert_eq|].
  split.
  - by rewrite dom_insert_L, parseHead_pairs, dom_foldl_setPair.
  - intros key Hd Hp. rewrite <- parsed_parts. by apply parsed_lookup.
Qed.

Lemma lastValue_elem_of {V} (k : jsstring) (v : V) (pairs : list (jsstring * V)) :
  lastValue k pairs = Some v -> (k, v) ∈ pairs.
Proof.
  unfold lastValue. destruct (List.find _ (rev pairs)) as [[k' v']|] eqn:E; [|done].
  intros [= <-]. apply find_some in E as [Hin Hk].
  apply bool_decide_eq_true in Hk. simpl in Hk. subst k'.
  apply list_elem_of_In. by apply in_rev.
Qed.

Lemma startsWith_colon_lookup (s : jsstring) (j : nat) :
  s !! j = Some 58%N -> startsWith COLON (drop j s) = true.
Proof. intros H. by rewrite (drop_S _ _ _ H). Qed.

(** The key of a line holds no colon, and key and value are trimmed. *)
Lemma keyValue_trimmed (line k v : jsstring) :
  keyValue line = Some (k, v) -> trim k = k /\ trim v = v /\ (58%N ∉ k).
Proof.
  unfold keyValue. destruct (trim line); [done|].
  destruct (indexOf COLON line) as [idx|] eqn:E; [|done].
  simpl. intros [= <- <-]. split; [apply trim_idemp|]. split; [apply trim_idemp|].
  intros Hin%elem_of_trim. unfold slice_to in Hin.
  apply elem_of_take in Hin as (j & Hj & Hlt).
  apply indexOf_Some in E as [_ Hfirst].
  specialize (Hfirst j Hlt). by rewrite startsWith_colon_lookup in Hfirst.
Qed.

(** X2: every key of the mapping [parseMetaTxt] returns, other than
    [description], is trimmed, holds no colon and is not [__proto__],
    and its value is trimmed: what follows the first colon of a line,
    further colons included, belongs to the value. *)
Theorem parseMetaTxt_keys_trimmed (txt : jsstring) (meta : gmap jsstring jsstring)
    (key value : jsstring) :
  parseMetaTxt txt = Ok meta ->
  meta !! key = Some value ->
  key <> js "description" ->
  trim key = key /\ trim value = value /\ (58%N ∉ key) /\ key <> js "__proto__".
Proof.
  rewrite parseMetaTxt_parts. intros [= <-] Hlookup Hd.
  rewrite lookup_insert_ne in Hlookup by done.
  rewrite parseHead_pairs in Hlookup.
  assert (key <> PROTO) as Hp.
  { intros ->. by rewrite lookup_foldl_setPair_proto, lookup_empty in Hlookup. }
  rewrite lookup_foldl_setPair, lookup_empty in Hlookup by done.
  destruct (lastValue key _) as [v|] eqn:E; [|done]. injection Hlookup as ->.
  apply lastValue_elem_of in E. unfold headerPairs in E.
  apply list_elem_of_omap in E as (line & _ & Hline).
  apply keyValue_trimmed in Hline as (? & ? & ?). done.
Qed.

Lemma parseMetaTxt_keys_trimmed_witness :
  trim (js "title") = js "title" /\ trim (js "B:eta") = js "B:eta" /\
  (58%N ∉ js "title") /\ js "title" <> js "__proto__".
Proof.
  apply (parseMetaTxt_keys_trimmed (js " title : B:eta " ++ DELIMITER ++ js "x")
           (<[js "description" := js "x"]> {[ js "title" := js "B:eta" ]}));
    [vm_compute; reflexivity|reflexivity|discriminate].
Defined.

(** ** Documents with CRLF line ends *)

Lemma noBareLF_no_delimiter (s : jsstring) (prev : N) (j : nat) :
  noBareLF prev s = true -> startsWith DELIMITER (drop j s) = false.
Proof.
  revert prev j. induction s as [|c s IH]; intros prev j H.
  - by rewrite drop_nil.
  - simpl in H. apply andb_true_iff in H as [Hc Hs]. destruct j as [|j].
    + simpl. destruct (startsWith DELIMITER (c :: s)) eqn:E; [|done].
      apply startsWith_true in E. revert E.
      generalize (drop (length DELIMITER) (c :: s)). intros r E.
      change (c :: s = LF :: 45%N :: 45%N :: 45%N :: LF :: r) in E.
      injection E as -> ->. by simpl in Hs.
    + simpl. by apply (IH c).
Qed.

Lemma indexOf_None_intro (needle s : jsstring) :
  (forall j, startsWith needle (drop j s) = false) -> indexOf needle s = None.
Proof.
  intros H. destruct (indexOf needle s) as [i|] eqn:E; [|done].
  apply indexOf_Some in E as [E _]. by rewrite H in E.
Qed.

(** X3: a document in which every line feed follows a carriage return (a
    file saved with CRLF line ends) has no delimiter for [parseMetaTxt],
    whatever lines of three dashes it holds: its [description] is the
    empty string and the whole text is read as header lines. *)
Theorem parseMetaTxt_crlf_has_no_body (txt : jsstring) :
  noBareLF 0 txt = true ->
  parseMetaTxt txt = Ok (<[js "description" := []]> (parseHead txt)).
Proof.
  intros H. apply parseMetaTxt_undelimited, indexOf_None_intro.
  intros j. by apply (noBareLF_no_delimiter _ 0%N).
Qed.

Lemma parseMetaTxt_crlf_has_no_body_witness :
  parseMetaTxt (js "title: A" ++ [CR; LF] ++ js "---" ++ [CR; LF] ++ js "Body")
  = Ok (<[js "description" := []]>
          (parseHead (js "title: A" ++ [CR; LF] ++ js "---" ++ [CR; LF] ++ js "Body"))).
Proof. apply parseMetaTxt_crlf_has_no_body. reflexivity. Defined.

(** ** The records of the collectors *)

Lemma elem_of_collectProjects localeCompare disk out r :
  (collectProjects localeCompare disk).1 = Ok out -> r ∈ out ->
  exists dirent txt,
    dirent ∈ listing disk projectsBase /\ Dirent.isDirectory dirent = true /\
    fs.readFile disk (metaPath projectsBase (Dirent.name dirent)) = Ok txt /\
    r = projectOf disk (Dirent.name dirent) txt.
Proof.
  rewrite collectProjects_spec. intros [= <-] Hr. by apply elem_of_collect in Hr.
Qed.

Lemma elem_of_collectNews localeCompare disk out r :
  (collectNews localeCompare disk).1 = Ok out -> r ∈ out ->
  exists dirent txt,
    dirent ∈ listing disk newsBase /\ Dirent.isDirectory dirent = true /\
    fs.readFile disk (metaPath newsBase (Dirent.name dirent)) = Ok txt /\
    r = newsOf disk (Dirent.name dirent) txt.
Proof.
  rewrite collectNews_spec. intros [= <-] Hr. by apply elem_of_collect in Hr.
Qed.

Lemma elem_of_collectTeam localeCompare unicodeLowerCase disk out r :
  (collectTeam localeCompare unicodeLowerCase disk).1 = Ok out -> r ∈ out ->
  exists dirent txt,
    dirent ∈ listing disk teamBase /\ Dirent.isDirectory dirent = true /\
    fs.readFile disk (metaPath teamBase (Dirent.name dirent)) = Ok txt /\
    r = memberOf disk (Dirent.name dirent) txt.
Proof.
  rewrite collectTeam_spec. intros [= <-] Hr. by apply elem_of_collect in Hr.
Qed.

Ltac other_key := let H := fresh in intros H; vm_compute in H; discriminate H.

(** X4: every record of [collectProjects] comes from a directory of the
    projects root whose [meta.txt] is read, bears its name as slug and
    has the path [/content/projects/<slug>/]; the title is the value of
    the last [title] line of the header and the slug without such a line
    (an empty value stays empty), [date] and [links] are the values of
    their last lines and [null] without, the status is [active] without
    a [status] line, and the description is the body of the document. *)
Theorem project_record_fields
    (localeCompare : option jsstring -> jsstring -> jsstring -> Z)
    (disk : fs.snapshot) (out : list Project.t) (r : Project.t) :
  (collectProjects localeCompare disk).1 = Ok out -> r ∈ out ->
  exists dirent txt,
    dirent ∈ listing disk projectsBase /\ Dirent.type dirent = Directory /\
    fs.readFile disk (metaPath projectsBase (Dirent.name dirent)) = Ok txt /\
    let pairs := headerPairs (headerOf txt) in
    Project.slug r = Dirent.name dirent /\
    Project.title r = default (Project.slug r) (lastValue (js "title") pairs) /\
    Project.date r = lastValue (js "date") pairs /\
    Project.status r = default (js "active") (lastValue (js "status") pairs) /\
    Project.links r = lastValue (js "links") pairs /\
    Project.description r = bodyOf txt /\
    Project.path r = js "/content/projects/" ++ Project.slug r ++ js "/".
Proof.
  intros Hout Hr.
  destruct (elem_of_collectProjects _ _ _ _ Hout Hr) as (d & txt & Hd & Hdir & Hread & ->).
  exists d, txt. apply isDirectory_type in Hdir. repeat (split; [done|]).
  unfold projectOf. simpl.
  rewrite !parsed_lookup by other_key. by rewrite parsed_description.
Qed.

Lemma project_record_fields_witness :
  exists dirent txt,
    dirent ∈ listing contentDisk projectsBase /\ Dirent.type dirent = Directory /\
    fs.readFile contentDisk (metaPath projectsBase (Dirent.name dirent)) = Ok txt /\
    let pairs := headerPairs (headerOf txt) in
    let r := projectOf contentDisk (js "alpha")
               (js "title: Alpha" ++ DELIMITER ++ js "First.") in
    Project.slug r = Dirent.name dirent /\
    Project.title r = default (Project.slug r) (lastValue (js "title") pairs) /\
    Project.date r = lastValue (js "date") pairs /\
    Project.status r = default (js "active") (lastValue (js "status") pairs) /\
    Project.links r = lastValue (js "links") pairs /\
    Project.description r = bodyOf txt /\
    Project.path r = js "/content/projects/" ++ Project.slug r ++ js "/".
Proof.
  apply (project_record_fields sampleLocaleCompare contentDisk
           [projectOf contentDisk (js "alpha")
              (js "title: Alpha" ++ DELIMITER ++ js "First.");
            projectOf contentDisk (js "beta") (js "title: Beta")]).
  - vm_compute. reflexivity.
  - apply elem_of_cons. by left.
Defined.

(** X5: every record of [collectNews] comes from a directory of the news
    root whose [meta.txt] is read, bears its name as slug and has the
    path [/content/news/<slug>/]; the title falls back to the slug and
    the author to [Skylink] when the header has no such line, [date] is
    [null] without a [date] line, and the description is the body. *)
Theorem news_record_fields
    (localeCompare : option jsstring -> jsstring -> jsstring -> Z)
    (disk : fs.snapshot) (out : list News.t) (r : News.t) :
  (collectNews localeCompare disk).1 = Ok out -> r ∈ out ->
  exists dirent txt,
    dirent ∈ listing disk newsBase /\ Dirent.type dirent = Directory /\
    fs.readFile disk (metaPath newsBase (Dirent.name dirent)) = Ok txt /\
    let pairs := headerPairs (headerOf txt) in
    News.slug r = Dirent.name dirent /\
    News.title r = default (News.slug r) (lastValue (js "title") pairs) /\
    News.date r = lastValue (js "date") pairs /\
    News.author r = default (js "Skylink") (lastValue (js "author") pairs) /\
    News.description r = bodyOf txt /\
    News.path r = js "/content/news/" ++ News.slug r ++ js "/".
Proof.
  intros Hout Hr.
  destruct (elem_of_collectNews _ _ _ _ Hout Hr) as (d & txt & Hd & Hdir & Hread & ->).
  exists d, txt. apply isDirectory_type in Hdir. repeat (split; [done|]).
  unfold newsOf. simpl.
  rewrite !parsed_lookup by other_key. by rewrite parsed_description.
Qed.

(** X6: every record of [collectTeam] comes from a directory of the team
    root whose [meta.txt] is read and bears its name as slug; the name
    falls back to the slug, [role], [email] and [links] to the empty
    string when the header has no such line, and [bio] is the body of
    the document. *)
Theorem member_record_fields
    (localeCompare : option jsstring -> jsstring -> jsstring -> Z)
    (unicodeLowerCase : jsstring -> jsstring)
    (disk : fs.snapshot) (out : list TeamMember.t) (r : TeamMember.t) :
  (collectTeam localeCompare unicodeLowerCase disk).1 = Ok out -> r ∈ out ->
  exists dirent txt,
    dirent ∈ listing disk teamBase /\ Dirent.type dirent = Directory /\
    fs.readFile disk (metaPath teamBase (Dirent.name dirent)) = Ok txt /\
    let pairs := headerPairs (headerOf txt) in
    TeamMember.slug r = Dirent.name dirent /\
    TeamMember.name r = default (TeamMember.slug r) (lastValue (js "name") pairs) /\
    TeamMember.role r = default [] (lastValue (js "role") pairs) /\
    TeamMember.email r = default [] (lastValue (js "email") pairs) /\
    TeamMember.links r = default [] (lastValue (js "links") pairs) /\
    TeamMember.bio r = bodyOf txt.
Proof.
  intros Hout Hr.
  destruct (elem_of_collectTeam _ _ _ _ _ Hout Hr) as (d & txt & Hd & Hdir & Hread & ->).
  exists d, txt. apply isDirectory_type in Hdir. repeat (split; [done|]).
  unfold memberOf. simpl.
  rewrite !parsed_lookup by other_key. by rewrite parsed_description.
Qed.

Lemma news_record_fields_witness :
  exists dirent txt,
    dirent ∈ listing siteDisk newsBase /\ Dirent.type dirent = Directory /\
    fs.readFile siteDisk (metaPath newsBase (Dirent.name dirent)) = Ok txt /\
    let pairs := headerPairs (headerOf txt) in
    let r := newsOf siteDisk (js "launch")
               (js "title: Launch" ++ [LF] ++ js "date: 2024-05-01"
                ++ DELIMITER ++ js "We fly.") in
    News.slug r = Dirent.name dirent /\
    News.title r = default (News.slug r) (lastValue (js "title") pairs) /\
    News.date r = lastValue (js "date") pairs /\
    News.author r = default (js "Skylink") (lastValue (js "author") pairs) /\
    News.description r = bodyOf txt /\
    News.path r = js "/content/news/" ++ News.slug r ++ js "/".
Proof.
  apply (news_record_fields sampleLocaleCompare siteDisk
           [newsOf siteDisk (js "launch")
              (js "title: Launch" ++ [LF] ++ js "date: 2024-05-01"
               ++ DELIMITER ++ js "We fly.")]).
  - vm_compute. reflexivity.
  - apply elem_of_cons. by left.
Defined.

Lemma member_record_fields_witness :
  exists dirent txt,
    dirent ∈ listing siteDisk teamBase /\ Dirent.type dirent = Directory /\
    fs.readFile siteDisk (metaPath teamBase (Dirent.name dirent)) = Ok txt /\
    let pairs := headerPairs (headerOf txt) in
    let r := memberOf siteDisk (js "jan") (js "role: President") in
    TeamMember.slug r = Dirent.name dirent /\
    TeamMember.name r = default (TeamMember.slug r) (lastValue (js "name") pairs) /\
    TeamMember.role r = default [] (lastValue (js "role") pairs) /\
    TeamMember.email r = default [] (lastValue (js "email") pairs) /\
    TeamMember.links r = default [] (lastValue (js "links") pairs) /\
    TeamMember.bio r = bodyOf txt.
Proof.
  apply (member_record_fields sampleLocaleCompare sampleUnicodeLowerCase siteDisk
           [memberOf siteDisk (js "jan") (js "role: President");
            memberOf siteDisk (js "ola") (js "name: Ola" ++ [LF] ++ js "role: Team Leader")]).
  - vm_compute. reflexivity.
  - apply elem_of_cons. by left.
Defined.

(** ** Tags and gallery of a project *)

Lemma split_from_single_free (c : N) (s : jsstring) :
  (c ∉ (split_from [c] 0 s).1) /\
  Forall (fun piece => c ∉ piece) (split_from [c] 0 s).2.
Proof.
  induction s as [|d s [IHh IHt]]; cbn [split_from].
  - split; [by intros ?%elem_of_nil|constructor].
  - change (startsWith [c] (d :: s)) with ((c =? d)%N && true).
    rewrite andb_true_r. change (length [c] - 1)%nat with 0%nat.
    destruct (split_from [c] 0 s) as [h t]. cbn [fst snd] in *.
    destruct (c =? d)%N eqn:E; cbn [fst snd].
    + split; [by intros ?%elem_of_nil|by constructor].
    + split; [|done]. apply N.eqb_neq in E.
      intros [->|H]%elem_of_cons; done.
Qed.

(** No piece of a split at a one-unit separator holds the separator. *)
Lemma split_single_free (c : N) (s : jsstring) :
  Forall (fun piece => c ∉ piece) (split [c] s).
Proof.
  pose proof (split_from_single_free c s) as [Hh Ht].
  unfold split. destruct (split_from [c] 0 s). by constructor.
Qed.

(** X7: the tags of every record of [collectProjects] are the pieces of
    the value of the last [tags] line, split at the commas, trimmed, and
    without the empty ones, in order: no tag is empty, none begins or
    ends with white space, none holds a comma, and a document without a
    [tags] line has no tag. *)
Theorem project_tags
    (localeCompare : option jsstring -> jsstring -> jsstring -> Z)
    (disk : fs.snapshot) (out : list Project.t) (r : Project.t) :
  (collectProjects localeCompare disk).1 = Ok out -> r ∈ out ->
  (exists txt,
      fs.readFile disk (metaPath projectsBase (Project.slug r)) = Ok txt /\
      Project.tags r =
      List.filter (fun s => negb (bool_decide (s = [])))
        (List.map trim
           (split (js ",")
              (default [] (lastValue (js "tags") (headerPairs (headerOf txt))))))
      /\ (lastValue (js "tags") (headerPairs (headerOf txt)) = None ->
          Project.tags r = [])) /\
  forall tag, tag ∈ Project.tags r -> tag <> [] /\ trim tag = tag /\ (44%N ∉ tag).
Proof.
  intros Hout Hr.
  destruct (elem_of_collectProjects _ _ _ _ Hout Hr) as (d & txt & Hd & Hdir & Hread & ->).
  assert (Project.tags (projectOf disk (Dirent.name d) txt) =
          List.filter (fun s => negb (bool_decide (s = [])))
            (List.map trim
               (split (js ",")
                  (default [] (lastValue (js "tags") (headerPairs (headerOf txt)))))))
    as Htags.
  { unfold projectOf. simpl. by rewrite parsed_lookup by other_key. }
  split.
  - exists txt. split; [done|]. split; [done|]. intros Hnone.
    rewrite Htags, Hnone. reflexivity.
  - intros tag Htag. rewrite Htags in Htag.
    apply list_elem_of_In, filter_In in Htag as [Hin Hne].
    apply in_map_iff in Hin as (piece & <- & Hpiece).
    split; [|split].
    + intros H. rewrite H in Hne. done.
    + apply trim_idemp.
    + intros Hc%elem_of_trim.
      pose proof (split_single_free 44 (default [] (lastValue (js "tags")
                    (headerPairs (headerOf txt))))) as Hfree.
      rewrite Forall_forall in Hfree. apply (Hfree piece); [|done].
      by apply list_elem_of_In.
Qed.

Lemma project_tags_witness :
  Project.tags (projectOf siteDisk (js "rover")
     (js "title: Rover" ++ [LF] ++ js "tags: a, b ,, c" ++ DELIMITER ++ js "Wheels."))
  = [js "a"; js "b"; js "c"] /\
  forall tag,
    tag ∈ Project.tags (projectOf siteDisk (js "rover")
            (js "title: Rover" ++ [LF] ++ js "tags: a, b ,, c" ++ DELIMITER ++ js "Wheels.")) ->
    tag <> [] /\ trim tag = tag /\ (44%N ∉ tag).
Proof.
  split; [vm_compute; reflexivity|].
  apply (proj2 (project_tags sampleLocaleCompare siteDisk
           [projectOf siteDisk (js "rover")
              (js "title: Rover" ++ [LF] ++ js "tags: a, b ,, c" ++ DELIMITER
               ++ js "Wheels.")] _
           ltac:(vm_compute; reflexivity) ltac:(apply elem_of_cons; by left))).
Defined.

(** X8: the gallery of every record of [collectProjects] lists the
    regular files of the directory [gallery] of the project, and only
    those (no subdirectory, no link), in the order of the listing, each
    as [/content/projects/<slug>/gallery/<name>]; it is empty when that
    directory cannot be listed. *)
Theorem project_gallery
    (localeCompare : option jsstring -> jsstring -> jsstring -> Z)
    (disk : fs.snapshot) (out : list Project.t) (r : Project.t) :
  (collectProjects localeCompare disk).1 = Ok out -> r ∈ out ->
  let gdir := (projectsBase ++ [Project.slug r]) ++ [js "gallery"] in
  (forall entries,
      fs.readdir disk gdir = Ok entries ->
      Project.gallery r =
      List.map (fun g => js "/content/projects/" ++ Project.slug r
                         ++ js "/gallery/" ++ Dirent.name g)
        (List.filter
           (fun g => match Dirent.type g with RegularFile => true | _ => false end)
           entries)) /\
  (forall e, fs.readdir disk gdir = Throw e -> Project.gallery r = []).
Proof.
  intros Hout Hr.
  destruct (elem_of_collectProjects _ _ _ _ Hout Hr) as (d & txt & Hd & Hdir & Hread & ->).
  simpl. unfold listing. split.
  - by intros entries ->.
  - by intros e ->.
Qed.

Lemma project_gallery_witness :
  Project.gallery (projectOf siteDisk (js "rover")
     (js "title: Rover" ++ [LF] ++ js "tags: a, b ,, c" ++ DELIMITER ++ js "Wheels."))
  = [js "/content/projects/rover/gallery/1.png";
     js "/content/projects/rover/gallery/2.png"].
Proof.
  apply (proj1 (project_gallery sampleLocaleCompare siteDisk
           [projectOf siteDisk (js "rover")
              (js "title: Rover" ++ [LF] ++ js "tags: a, b ,, c" ++ DELIMITER
               ++ js "Wheels.")] _
           ltac:(vm_compute; reflexivity) ltac:(apply elem_of_cons; by left))
         [{| Dirent.name := js "1.png"; Dirent.type := RegularFile |};
          directory (js "raw");
          {| Dirent.name := js "2.png"; Dirent.type := RegularFile |}]).
  reflexivity.
Defined.

(** ** Records, warnings and directories *)

Lemma length_sort {A} (compare : A -> A -> Z) (arr : list A) :
  length (sort compare arr) = length arr.
Proof. by rewrite sort_Permutation. Qed.

Section Accounting.

Context {R : Type}.
Variable collect : fs.snapshot -> io (list R).
Variable base : fspath.
Variable build : fs.snapshot -> jsstring -> jsstring -> R.
Variable message : jsstring -> jsstring.
Variable compare : R -> R -> Z.
Variable slugOf : R -> jsstring.

Hypothesis collect_spec : forall disk,
  collect disk
  = (Ok (sort compare (omap (itemOf disk base (build disk)) (listing disk base))),
     omap (warningOf disk base message) (listing disk base)).
Hypothesis build_slug : forall disk slug txt, slugOf (build disk slug txt) = slug.

Lemma record_or_warning disk (items : list Dirent.t) :
  (length (omap (itemOf disk base (build disk)) items)
   + length (omap (warningOf disk base message) items)
   = length (List.filter Dirent.isDirectory items))%nat.
Proof.
  induction items as [|d items IH]; [done|].
  cbn [omap list_omap List.filter]. unfold itemOf at 1, warningOf at 1.
  destruct (Dirent.isDirectory d); [|exact IH].
  destruct (fs.readFile disk _); simpl; lia.
Qed.

Lemma collector_accountsForDirectories : accountsForDirectories collect base message.
Proof.
  intros disk out events. rewrite collect_spec. intros [= <- <-]. split.
  - rewrite length_sort. apply record_or_warning.
  - intros e (d & Hd & He)%list_elem_of_omap. unfold warningOf in He.
    destruct (Dirent.isDirectory d) eqn:Edir; [|done].
    destruct (fs.readFile disk _) as [|err] eqn:Eread; [done|].
    injection He as <-. exists d, err. by apply isDirectory_type in Edir.
Qed.

Lemma slugs_of_items disk (items : list Dirent.t) (s : jsstring) :
  s ∈ slugOf <$> omap (itemOf disk base (build disk)) items ->
  s ∈ Dirent.name <$> items.
Proof.
  intros (r & -> & Hr)%list_elem_of_fmap.
  apply list_elem_of_omap in Hr as (d & Hd & Hitem). unfold itemOf in Hitem.
  destruct (Dirent.isDirectory d); [|done].
  destruct (fs.readFile disk _); [|done]. injection Hitem as <-.
  rewrite build_slug. apply list_elem_of_fmap. by exists d.
Qed.

Lemma NoDup_slugs_of_items disk (items : list Dirent.t) :
  NoDup (Dirent.name <$> items) ->
  NoDup (slugOf <$> omap (itemOf disk base (build disk)) items).
Proof.
  induction items as [|d items IH]; [constructor|].
  rewrite fmap_cons. intros [Hd Hitems]%NoDup_cons.
  cbn [omap list_omap]. destruct (itemOf disk base (build disk) d) as [r|] eqn:E;
    [|by apply IH].
  rewrite fmap_cons. apply NoDup_cons. split; [|by apply IH].
  intros Hin%slugs_of_items. unfold itemOf in E.
  destruct (Dirent.isDirectory d); [|done].
  destruct (fs.readFile disk _); [|done]. injection E as <-.
  by rewrite build_slug in Hin.
Qed.

Lemma collector_unique_slugs disk out :
  (collect disk).1 = Ok out ->
  NoDup (Dirent.name <$> listing disk base) -> NoDup (slugOf <$> out).
Proof.
  rewrite collect_spec. intros [= <-] Hnames.
  rewrite sort_Permutation. by apply NoDup_slugs_of_items.
Qed.

End Accounting.

(** X9: in every collection each directory of the root gives either one
    record or one warning: the records and the warnings together are as
    many as the directories of the listing, and every line the collector
    prints is the warning about a listed directory whose [meta.txt]
    could not be read. *)
Theorem directories_are_accounted_for
    (localeCompare : option jsstring -> jsstring -> jsstring -> Z)
    (unicodeLowerCase : jsstring -> jsstring) :
  accountsForDirectories (collectProjects localeCompare) projectsBase
    (fun slug => js "There is no meta.txt in " ++ slug ++ js ", skipping..") /\
  accountsForDirectories (collectNews localeCompare) newsBase
    (fun slug => js "There is no meta.txt in /" ++ slug ++ js ", skipping...") /\
  accountsForDirectories (collectTeam localeCompare unicodeLowerCase) teamBase
    (fun slug => js "There is no meta.txt in " ++ slug ++ js ", skipping..").
Proof.
  split; [|split].
  - eapply collector_accountsForDirectories, collectProjects_spec.
  - eapply collector_accountsForDirectories, collectNews_spec.
  - eapply collector_accountsForDirectories, collectTeam_spec.
Qed.

Lemma directories_are_accounted_for_witness :
  (length [newsOf siteDisk (js "launch")
             (js "title: Launch" ++ [LF] ++ js "date: 2024-05-01"
              ++ DELIMITER ++ js "We fly.")]
   + length [warn (js "There is no meta.txt in /draft, skipping...")]
   = length (List.filter Dirent.isDirectory (listing siteDisk newsBase)))%nat.
Proof.
  apply (proj1 (proj2 (directories_are_accounted_for sampleLocaleCompare
                         sampleUnicodeLowerCase))).
  vm_compute. reflexivity.
Defined.

(** X10: in every collection, when the listing of the root names each
    entry once, no two records have the same slug. *)
Theorem slugs_are_unique
    (localeCompare : option jsstring -> jsstring -> jsstring -> Z)
    (unicodeLowerCase : jsstring -> jsstring) (disk : fs.snapshot) :
  (forall out, (collectProjects localeCompare disk).1 = Ok out ->
               NoDup (Dirent.name <$> listing disk projectsBase) ->
               NoDup (Project.slug <$> out)) /\
  (forall out, (collectNews localeCompare disk).1 = Ok out ->
               NoDup (Dirent.name <$> listing disk newsBase) ->
               NoDup (News.slug <$> out)) /\
  (forall out, (collectTeam localeCompare unicodeLowerCase disk).1 = Ok out ->
               NoDup (Dirent.name <$> listing disk teamBase) ->
               NoDup (TeamMember.slug <$> out)).
Proof.
  split; [|split]; intros out.
  - eapply collector_unique_slugs; [apply collectProjects_spec|done].
  - eapply collector_unique_slugs; [apply collectNews_spec|done].
  - eapply collector_unique_slugs; [apply collectTeam_spec|done].
Qed.

Lemma slugs_are_unique_witness :
  NoDup (TeamMember.slug <$>
           [memberOf siteDisk (js "jan") (js "role: President");
            memberOf siteDisk (js "ola") (js "name: Ola" ++ [LF] ++ js "role: Team Leader")]).
Proof.
  apply (proj2 (proj2 (slugs_are_unique sampleLocaleCompare sampleUnicodeLowerCase
                         siteDisk))).
  - vm_compute. reflexivity.
  - vm_compute. apply NoDup_cons_2; [|apply NoDup_singleton].
    intros H%list_elem_of_singleton. discriminate H.
Defined.

(** ** main *)

Section Main.

Variable localeCompare : option jsstring -> jsstring -> jsstring -> Z.
Variable unicodeLowerCase : jsstring -> jsstring.
Variable disk : fs.snapshot.

Let projects := collected (collectProjects localeCompare disk).
Let news := collected (collectNews localeCompare disk).
Let team := collected (collectTeam localeCompare unicodeLowerCase disk).
Let warnings :=
  (collectProjects localeCompare disk).2 ++ (collectNews localeCompare disk).2
  ++ (collectTeam localeCompare unicodeLowerCase disk).2.
Let w1 := written (PUBLIC_DATA ++ [js "projects.json"]) (ProjectsJson projects).
Let w2 := written (PUBLIC_DATA ++ [js "news.json"]) (NewsJson news).
Let w3 := written (PUBLIC_DATA ++ [js "team.json"]) (TeamJson team).
Let w4 := written (PUBLIC_DATA ++ [js "stats.json"]) (StatsJson (statsOf disk)).

(** The run, step by step: it stops at the first step that throws. *)
Lemma main_steps :
  main localeCompare unicodeLowerCase disk =
  match fs.mkdir disk PUBLIC_DATA with
  | Throw e => (Throw e, [])
  | Ok _ =>
    match fs.writeFile disk (PUBLIC_DATA ++ [js "projects.json"]) (ProjectsJson projects) with
    | Throw e => (Throw e, warnings)
    | Ok _ =>
      match fs.writeFile disk (PUBLIC_DATA ++ [js "news.json"]) (NewsJson news) with
      | Throw e => (Throw e, warnings ++ [w1])
      | Ok _ =>
        match fs.writeFile disk (PUBLIC_DATA ++ [js "team.json"]) (TeamJson team) with
        | Throw e => (Throw e, warnings ++ [w1; w2])
        | Ok _ =>
          match fs.writeFile disk (PUBLIC_DATA ++ [js "stats.json"])
                  (StatsJson (statsOf disk)) with
          | Throw e => (Throw e, warnings ++ [w1; w2; w3])
          | Ok _ =>
              (Ok tt, warnings ++ [w1; w2; w3; w4; log (js "Generated /public/data/*.json")])
          end
        end
      end
    end
  end.
Proof.
  subst projects news team warnings w1 w2 w3 w4.
  unfold main, ensureDir, writeJson, await, console, collected.
  rewrite collectProjects_spec, collectNews_spec, collectTeam_spec, collectStats_spec.
  unfold mbind, io_bind. cbn [fst snd].
  destruct (fs.mkdir disk PUBLIC_DATA); [|done].
  repeat (destruct (fs.writeFile disk _ _);
          [|by rewrite ?app_nil_r, <- ?app_assoc]).
  by rewrite ?app_nil_r, <- ?app_assoc.
Qed.

End Main.

(** X11: when the output directory [public/data] cannot be made, the run
    ends with status 1 having printed the error and nothing else: nothing
    of the content tree is reported and no file is written. *)
Theorem run_without_output_directory
    (localeCompare : option jsstring -> jsstring -> jsstring -> Z)
    (unicodeLowerCase : jsstring -> jsstring) (disk : fs.snapshot) (e : exn) :
  fs.mkdir disk PUBLIC_DATA = Throw e ->
  run localeCompare unicodeLowerCase disk = (1, [error e]).
Proof. intros H. unfold run. rewrite main_steps, H. done. Qed.

Lemma run_without_output_directory_witness :
  run sampleLocaleCompare sampleUnicodeLowerCase readOnlyDisk
  = (1, [error (SystemError EROFS)]).
Proof. apply run_without_output_directory. reflexivity. Defined.

(** X12: the run ends with status 0 or 1, and with 0 exactly when the
    output directory is made and the four artifacts are written; no
    failure to list a directory, read a document or probe an asset makes
    it end with 1. *)
Theorem run_exit_status
    (localeCompare : option jsstring -> jsstring -> jsstring -> Z)
    (unicodeLowerCase : jsstring -> jsstring) (disk : fs.snapshot) :
  ((run localeCompare unicodeLowerCase disk).1 = 0 \/
   (run localeCompare unicodeLowerCase disk).1 = 1) /\
  ((run localeCompare unicodeLowerCase disk).1 = 0 <->
   fs.mkdir disk PUBLIC_DATA = Ok tt /\
   fs.writeFile disk (PUBLIC_DATA ++ [js "projects.json"])
     (ProjectsJson (collected (collectProjects localeCompare disk))) = Ok tt /\
   fs.writeFile disk (PUBLIC_DATA ++ [js "news.json"])
     (NewsJson (collected (collectNews localeCompare disk))) = Ok tt /\
   fs.writeFile disk (PUBLIC_DATA ++ [js "team.json"])
     (TeamJson (collected (collectTeam localeCompare unicodeLowerCase disk))) = Ok tt /\
   fs.writeFile disk (PUBLIC_DATA ++ [js "stats.json"])
     (StatsJson (statsOf disk)) = Ok tt).
Proof.
  unfold run. rewrite main_steps.
  destruct (fs.mkdir disk PUBLIC_DATA) as [[]|]; [|split; [by right|by split; [|intros []]]].
  repeat (destruct (fs.writeFile disk _ _) as [[]|];
          [|split; [by right|split; [done|intros H; by destruct_and!]]]).
  split; [by left|done].
Qed.



(** ** The stats mapping *)

Lemma statsOf_lookup (disk : fs.snapshot) (key : jsstring) (value : StatValue) :
  statsOf disk !! key = Some value ->
  key <> PROTO /\ exists line k v,
    keyValue line = Some (k, v) /\ k = key /\ value = statValue v.
Proof.
  unfold statsOf. destruct (fs.readFile disk statsFile) as [txt|]; [|done].
  rewrite foldl_statsLine. intros H.
  assert (key <> PROTO) as Hp.
  { intros ->. by rewrite lookup_foldl_setPair_proto, lookup_empty in H. }
  split; [done|].
  rewrite lookup_foldl_setPair, lastValue_fmap, lookup_empty in H by done.
  destruct (lastValue key (omap keyValue (splitLines txt))) as [v|] eqn:E; [|done].
  injection H as <-. apply lastValue_elem_of, list_elem_of_omap in E as (line & _ & E).
  by exists line, key, v.
Qed.

(** X14: every number of the stats mapping is finite (the artifact holds
    no [NaN] and no infinity) and is [Number] of a trimmed value; every
    string of the mapping is a trimmed value of which [Number] is not
    finite; and no key of the mapping is [__proto__]. *)
Theorem stats_values (disk : fs.snapshot) (map : gmap jsstring StatValue)
    (key : jsstring) (value : StatValue) :
  (collectStats disk).1 = Ok map ->
  map !! key = Some value ->
  key <> js "__proto__" /\ trim key = key /\
  match value with
  | NumberValue n => isFinite n = true /\ exists v, trim v = v /\ n = Number v
  | StringValue s => isFinite (Number s) = false /\ trim s = s
  end.
Proof.
  rewrite collectStats_spec. intros [= <-] H.
  apply statsOf_lookup in H as (Hp & line & k & v & Hline & -> & ->).
  apply keyValue_trimmed in Hline as (Hk & Hv & _).
  split; [done|]. split; [done|]. unfold statValue.
  destruct (isFinite (Number v)) eqn:E; [|done]. split; [done|]. by exists v.
Qed.

Lemma stats_values_witness :
  js "users" <> js "__proto__" /\ trim (js "users") = js "users" /\
  isFinite (Finite 42) = true /\ exists v, trim v = v /\ Finite 42 = Number v.
Proof.
  apply (stats_values
           (statsDisk (js "users: 42" ++ [LF] ++ js "active: true"))
           {[ js "users" := NumberValue (Finite 42);
              js "active" := StringValue (js "true") ]}
           (js "users") (NumberValue (Finite 42))); reflexivity.
Defined.

(** ** Consistency of the comparators *)

(** With a comparator that is transitive and total the sorted array is
    in order: nothing in it has to go after something later. *)
Lemma sort_sorted {A} (compare : A -> A -> Z) (arr : list A) :
  (forall x y z, compare x y <= 0 -> compare y z <= 0 -> compare x z <= 0) ->
  (forall x y, 0 < compare x y -> compare y x <= 0) ->
  StronglySorted (fun x y => compare x y <= 0) (sort compare arr).
Proof.
  intros Htrans Htotal. induction arr as [|x arr IH]; simpl; [constructor|].
  revert IH. generalize (sort compare arr) as l. clear arr.
  induction l as [|y l IHl]; intros Hs; simpl.
  - repeat constructor.
  - apply StronglySorted_inv in Hs as [Hl Hy].
    destruct (compare x y <=? 0) eqn:E.
    + apply Z.leb_le in E. constructor; [by constructor|].
      constructor; [done|].
      eapply Forall_impl; [exact Hy|]. intros z Hz. by apply (Htrans x y z).
    + apply Z.leb_gt in E. constructor; [by apply IHl|].
      rewrite insertBy_Permutation. constructor; [by apply Htotal|done].
Qed.

Lemma codeUnitCompare_trans (x y z : jsstring) :
  codeUnitCompare x y <= 0 -> codeUnitCompare y z <= 0 -> codeUnitCompare x z <= 0.
Proof.
  revert y z. induction x as [|a x IH]; intros [|b y] [|c z]; simpl; try lia.
  destruct (N.ltb_spec a b), (N.ltb_spec b a), (N.ltb_spec b c), (N.ltb_spec c b),
    (N.ltb_spec a c), (N.ltb_spec c a); try lia.
  apply IH.
Qed.

Lemma codeUnitCompare_total (x y : jsstring) :
  0 < codeUnitCompare x y -> codeUnitCompare y x <= 0.
Proof.
  revert y. induction x as [|a x IH]; intros [|b y]; simpl; try lia.
  destruct (N.ltb_spec a b), (N.ltb_spec b a); try lia. apply IH.
Qed.

(** X15: with a host whose comparison is transitive and total in every
    locale, the array [collectProjects] returns is in the order of
    [projectsCompare]: no record has to go after a later one. *)
Theorem projects_are_sorted
    (localeCompare : option jsstring -> jsstring -> jsstring -> Z)
    (disk : fs.snapshot) (out : list Project.t) :
  (forall l x y z, localeCompare l x y <= 0 -> localeCompare l y z <= 0 ->
                   localeCompare l x z <= 0) ->
  (forall l x y, 0 < localeCompare l x y -> localeCompare l y x <= 0) ->
  (collectProjects localeCompare disk).1 = Ok out ->
  StronglySorted (fun a b => projectsCompare localeCompare a b <= 0) out.
Proof.
  intros Htrans Htotal. rewrite collectProjects_spec. intros [= <-].
  apply sort_sorted.
  - intros x y z. rewrite !projectsCompare_cases.
    destruct (projectHasDate x), (projectHasDate y), (projectHasDate z);
      try lia; eauto.
  - intros x y. rewrite !projectsCompare_cases.
    destruct (projectHasDate x), (projectHasDate y); try lia; eauto.
Qed.

Lemma projects_are_sorted_witness :
  StronglySorted (fun a b => projectsCompare plainLocaleCompare a b <= 0)
    [projectOf contentDisk (js "alpha") (js "title: Alpha" ++ DELIMITER ++ js "First.");
     projectOf contentDisk (js "beta") (js "title: Beta")].
Proof.
  apply (projects_are_sorted plainLocaleCompare contentDisk).
  - intros l. apply codeUnitCompare_trans.
  - intros l. apply codeUnitCompare_total.
  - vm_compute. reflexivity.
Defined.

(** X16: with a host whose comparison is transitive and total in the
    locale [pl], the array [collectTeam] returns is in the order of
    [teamCompare]: no member has to go after a later one. *)
Theorem team_is_sorted
    (localeCompare : option jsstring -> jsstring -> jsstring -> Z)
    (unicodeLowerCase : jsstring -> jsstring)
    (disk : fs.snapshot) (out : list TeamMember.t) :
  (forall x y z, localeCompare (Some (js "pl")) x y <= 0 ->
                 localeCompare (Some (js "pl")) y z <= 0 ->
                 localeCompare (Some (js "pl")) x z <= 0) ->
  (forall x y, 0 < localeCompare (Some (js "pl")) x y ->
               localeCompare (Some (js "pl")) y x <= 0) ->
  (collectTeam localeCompare unicodeLowerCase disk).1 = Ok out ->
  StronglySorted (fun a b => teamCompare localeCompare unicodeLowerCase a b <= 0) out.
Proof.
  intros Htrans Htotal. rewrite collectTeam_spec. intros [= <-].
  apply sort_sorted.
  - intros x y z. unfold teamCompare.
    repeat match goal with
           | |- context [(?a =? ?b)%Z] => destruct (Z.eqb_spec a b)
           end; simpl; try lia; eauto.
  - intros x y. unfold teamCompare.
    repeat match goal with
           | |- context [(?a =? ?b)%Z] => destruct (Z.eqb_spec a b)
           end; simpl; try lia; eauto.
Qed.

Lemma team_is_sorted_witness :
  StronglySorted
    (fun a b => teamCompare plainLocaleCompare sampleUnicodeLowerCase a b <= 0)
    [memberOf siteDisk (js "jan") (js "role: President");
     memberOf siteDisk (js "ola") (js "name: Ola" ++ [LF] ++ js "role: Team Leader")].
Proof.
  apply (team_is_sorted plainLocaleCompare sampleUnicodeLowerCase siteDisk).
  - apply codeUnitCompare_trans.
  - apply codeUnitCompare_total.
  - vm_compute. reflexivity.
Defined.

(** X17: [newsCompare] is not a consistent comparator. Of two dated items
    [a], [b] and an undated item [c] such that the date of [b] compares
    after that of [a] and the slugs compare [a] before [c] before [b],
    each has to go after another one ([a] after [b], [b] after [c], [c]
    after [a]), so no arrangement of the three is in the order of the
    comparator. *)
Theorem newsCompare_cycle
    (localeCompare : option jsstring -> jsstring -> jsstring -> Z)
    (a b c : News.t) (da db : jsstring) :
  News.date a = Some da -> News.date b = Some db -> da <> [] -> db <> [] ->
  newsHasDate c = false ->
  0 < localeCompare None db da ->
  0 < localeCompare None (News.slug b) (News.slug c) ->
  0 < localeCompare None (News.slug c) (News.slug a) ->
  (0 < newsCompare localeCompare a b /\
   0 < newsCompare localeCompare b c /\
   0 < newsCompare localeCompare c a) /\
  forall arr, arr ≡ₚ [a; b; c] ->
    ~ StronglySorted (fun x y => newsCompare localeCompare x y <= 0) arr.
Proof.
  intros Ha Hb Hda Hdb Hc Hdate Hbc Hca.
  assert (0 < newsCompare localeCompare a b) as Hab'.
  { unfold newsCompare. rewrite Ha, Hb. by destruct da, db. }
  assert (0 < newsCompare localeCompare b c) as Hbc'.
  { unfold newsCompare. unfold newsHasDate in Hc. by rewrite Hc, andb_false_r. }
  assert (0 < newsCompare localeCompare c a) as Hca'.
  { unfold newsCompare. unfold newsHasDate in Hc. by rewrite Hc. }
  split; [done|]. intros arr Harr Hs.
  symmetry in Harr. apply permutations_Permutation in Harr. cbn in Harr.
  repeat (apply elem_of_cons in Harr as [->|Harr]);
    try (by apply elem_of_nil in Harr);
    repeat match goal with
           | H : StronglySorted _ (_ :: _) |- _ =>
               apply StronglySorted_inv in H as [? ?]
           | H : Forall _ (_ :: _) |- _ => apply Forall_cons in H as [? ?]
           end; lia.
Qed.

Lemma newsCompare_cycle_witness :
  0 < newsCompare plainLocaleCompare (newsItem (js "a") (Some (js "2024-01-01")))
        (newsItem (js "c") (Some (js "2024-06-01"))) /\
  0 < newsCompare plainLocaleCompare (newsItem (js "c") (Some (js "2024-06-01")))
        (newsItem (js "b") None) /\
  0 < newsCompare plainLocaleCompare (newsItem (js "b") None)
        (newsItem (js "a") (Some (js "2024-01-01"))).
Proof.
  apply (newsCompare_cycle plainLocaleCompare
           (newsItem (js "a") (Some (js "2024-01-01")))
           (newsItem (js "c") (Some (js "2024-06-01")))
           (newsItem (js "b") None) (js "2024-01-01") (js "2024-06-01"));
    try reflexivity; discriminate.
Defined.

(** X18: the score of a role is the highest priority among the keywords
    of the table that occur in it, and 0 when none occurs: the table is
    written in descending priority, so the first match of the scan is
    also the best one. *)
Theorem roleScore_is_highest (role : jsstring) :
  (forall key priority,
      (key, priority) ∈ rolePriority -> includes key role = true ->
      priority <= roleScore role) /\
  ((roleScore role = 0 /\
    forall key priority, (key, priority) ∈ rolePriority -> includes key role = false) \/
   exists key, (key, roleScore role) ∈ rolePriority /\ includes key role = true).
Proof.
  unfold roleScore, rolePriority. simpl.
  destruct (includes (js "president") role) eqn:E1;
    [|destruct (includes (js "leader") role) eqn:E2;
      [|destruct (includes (js "head") role) eqn:E3]]; simpl.
  - split.
    + intros key p Hin _.
      repeat (apply elem_of_cons in Hin as [[= -> ->]|Hin]); try lia.
      by apply elem_of_nil in Hin.
    + right. exists (js "president"). split; [|done]. apply elem_of_cons. by left.
  - split.
    + intros key p Hin Hinc.
      repeat (apply elem_of_cons in Hin as [[= -> ->]|Hin]); try lia; try congruence.
      by apply elem_of_nil in Hin.
    + right. exists (js "leader"). split; [|done].
      apply elem_of_cons. right. apply elem_of_cons. by left.
  - split.
    + intros key p Hin Hinc.
      repeat (apply elem_of_cons in Hin as [[= -> ->]|Hin]); try lia; try congruence.
      by apply elem_of_nil in Hin.
    + right. exists (js "head"). split; [|done].
      do 2 (apply elem_of_cons; right). apply elem_of_cons. by left.
  - split.
    + intros key p Hin Hinc.
      repeat (apply elem_of_cons in Hin as [[= -> ->]|Hin]); try congruence.
      by apply elem_of_nil in Hin.
    + left. split; [done|]. intros key p Hin.
      repeat (apply elem_of_cons in Hin as [[= -> ->]|Hin]); try done.
      by apply elem_of_nil in Hin.
Qed.

Lemma roleScore_is_highest_witness :
  2 <= roleScore (js "vice president and team leader").
Proof.
  apply (proj1 (roleScore_is_highest (js "vice president and team leader"))
           (js "leader")).
  - apply elem_of_cons. right. apply elem_of_cons. by left.
  - reflexivity.
Defined.
